(** * The encrypted credential vault of [project3.py]

    A shallow embedding of the [PasswordManager] class: its fields, the three
    files it reads and writes, the terminal and the operating system's entropy
    source are one explicit state, and every method is a computation in a
    state-and-exception monad, so that [try]/[except] blocks, early [return]s
    and [print]s appear where the Python source has them.

    The libraries the script imports ([cryptography.fernet], [hashlib],
    [json], the [str] and [bytes] builtins) are not part of the repository.
    They are the operations of the class [PyLib]; what the theorems need to
    know about them is stated as named laws.

    Conventions.
    - A [str] is a [string]; [str.lower] is an operation of [PyLib], so
      nothing is assumed about it beyond the laws a theorem names.
    - [self.passwords] is a mapping from keys to records of three strings,
      in insertion order. [json.loads] is taken to yield such a mapping or
      to fail; other JSON shapes are outside the model.
    - The fields [key_file], [data_file] and [master_hash_file] of the state
      stand for the contents of the files of those names ([None]: no such
      file). File contents are arbitrary; of the writes of the object only
      the one to [passwords.enc], the one the source guards, can fail.
    - A draw of [secrets] is the next value of the entropy source reduced
      to the range asked for, so every sequence of draws is some source.
    - [export_passwords] and the menu loop [main] run in a process: the
      object with its files, and the other files of the working directory.
      Which file a path names is an operation of the class [PyText]; the
      loop runs for a bounded number of rounds. *)

From stdpp Require Import base list strings pretty gmap.
From Stdlib Require Import ZArith Lia Ascii.
From Stdlib.Strings Require Import Byte.

(** ** Data *)

Abbreviation bytes := (list byte).

Global Instance byte_eq_decision : EqDecision byte := Byte.byte_eq_dec.

(** The inner dictionaries of [self.passwords]: always the three keys
    ['service'], ['username'] and ['password']. *)
Module Entry.
Record t := mk {
  service : string;
  username : string;
  password : string
}.
End Entry.
Abbreviation entry := Entry.t.

(** [e['password'] = pw] *)
Definition set_password (pw : string) (e : entry) : entry :=
  Entry.mk (Entry.service e) (Entry.username e) pw.

Global Instance entry_eq_dec : EqDecision entry.
Proof. solve_decision. Defined.

(** A Python [dict] keeps its keys in insertion order, which [search] and
    [list_services] expose; it is an association list whose keys are
    pairwise distinct. *)
Abbreviation dict := (list (string * entry)).

Definition wf_dict (d : dict) : Prop := NoDup d.*1.

(** [d[k]] as an expression; [None] stands for [KeyError]. *)
Fixpoint dict_get (k : string) (d : dict) : option entry :=
  match d with
  | [] => None
  | (k', v) :: d' => if decide (k = k') then Some v else dict_get k d'
  end.

(** [k in d] *)
Definition dict_contains (k : string) (d : dict) : bool :=
  match dict_get k d with Some _ => true | None => false end.

(** [d[k] = v]: an existing key keeps its position, a new key goes last. *)
Fixpoint dict_set (k : string) (v : entry) (d : dict) : dict :=
  match d with
  | [] => [(k, v)]
  | (k', v') :: d' =>
      if decide (k = k') then (k, v) :: d' else (k', v') :: dict_set k v d'
  end.

(** [del d[k]] for a key that is present. *)
Fixpoint dict_del (k : string) (d : dict) : dict :=
  match d with
  | [] => []
  | (k', v') :: d' =>
      if decide (k = k') then d' else (k', v') :: dict_del k d'
  end.

(** [{k: v for k, v in items if cond(k, v)}]: the comprehension assigns into
    a fresh dictionary, one item after the other. *)
Definition dict_comprehension (cond : string → entry → bool)
    (items : list (string * entry)) : dict :=
  fold_left (λ acc kv, if cond kv.1 kv.2 then dict_set kv.1 kv.2 acc else acc)
            items [].

(** [q in s] on strings: [q] occurs in [s] as a contiguous run. *)
Fixpoint str_in (q s : string) : bool :=
  String.prefix q s ||
  match s with
  | EmptyString => false
  | String _ s' => str_in q s'
  end.

(** ** Exceptions and outcomes *)

Inductive exn :=
  | AttributeError      (* a method called on [None] *)
  | InvalidToken        (* [Fernet.decrypt] *)
  | UnicodeDecodeError  (* [bytes.decode] *)
  | JSONDecodeError     (* [json.loads] *)
  | ValueError          (* [Fernet(key)] on a malformed key *)
  | OSError             (* [open] or [write] *)
  | EOFError            (* [getpass] at end of input *)
  | IndexError          (* [secrets.choice] on an empty sequence *)
  | KeyError.

Global Instance exn_eq_dec : EqDecision exn.
Proof. solve_decision. Defined.

Inductive outcome (A : Type) :=
  | Return (a : A)
  | Raise (e : exn).
Arguments Return {A} a.
Arguments Raise {A} e.

(** What happens at the next [open(self.data_file, 'wb')] / [f.write]. *)
Inductive disk_event :=
  | WriteOk
  | OpenFails                (* the file is left as it was *)
  | WriteFails (kept : nat). (* truncated by [open], only [kept] bytes land *)

(** ** The state: the object, its files, the terminal, the entropy source *)

Record State := mkState {
  (* self *)
  key : option bytes;
  cipher : option bytes;      (* the [Fernet] object, named by its key *)
  passwords : dict;
  (* the files [.secret.key], [passwords.enc] and [.master.hash] *)
  key_file : option bytes;
  data_file : option bytes;
  master_hash_file : option string;
  (* the terminal: lines still to be typed, lines printed so far *)
  tty_in : list string;
  stdout : list string;
  (* [os.urandom]: the values it will deliver, and how many were taken *)
  entropy : nat → nat;
  drawn : nat;
  (* the fate of the coming writes to [passwords.enc]; none listed: success *)
  disk : list disk_event
}.

Definition with_key (v : option bytes) (s : State) : State :=
  mkState v (cipher s) (passwords s) (key_file s) (data_file s)
    (master_hash_file s) (tty_in s) (stdout s) (entropy s) (drawn s) (disk s).
Definition with_cipher (v : option bytes) (s : State) : State :=
  mkState (key s) v (passwords s) (key_file s) (data_file s)
    (master_hash_file s) (tty_in s) (stdout s) (entropy s) (drawn s) (disk s).
Definition with_passwords (v : dict) (s : State) : State :=
  mkState (key s) (cipher s) v (key_file s) (data_file s)
    (master_hash_file s) (tty_in s) (stdout s) (entropy s) (drawn s) (disk s).
Definition with_key_file (v : option bytes) (s : State) : State :=
  mkState (key s) (cipher s) (passwords s) v (data_file s)
    (master_hash_file s) (tty_in s) (stdout s) (entropy s) (drawn s) (disk s).
Definition with_data_file (v : option bytes) (s : State) : State :=
  mkState (key s) (cipher s) (passwords s) (key_file s) v
    (master_hash_file s) (tty_in s) (stdout s) (entropy s) (drawn s) (disk s).
Definition with_master_hash_file (v : option string) (s : State) : State :=
  mkState (key s) (cipher s) (passwords s) (key_file s) (data_file s)
    v (tty_in s) (stdout s) (entropy s) (drawn s) (disk s).
Definition with_tty_in (v : list string) (s : State) : State :=
  mkState (key s) (cipher s) (passwords s) (key_file s) (data_file s)
    (master_hash_file s) v (stdout s) (entropy s) (drawn s) (disk s).
Definition with_stdout (v : list string) (s : State) : State :=
  mkState (key s) (cipher s) (passwords s) (key_file s) (data_file s)
    (master_hash_file s) (tty_in s) v (entropy s) (drawn s) (disk s).
Definition with_drawn (v : nat) (s : State) : State :=
  mkState (key s) (cipher s) (passwords s) (key_file s) (data_file s)
    (master_hash_file s) (tty_in s) (stdout s) (entropy s) v (disk s).
Definition with_disk (v : list disk_event) (s : State) : State :=
  mkState (key s) (cipher s) (passwords s) (key_file s) (data_file s)
    (master_hash_file s) (tty_in s) (stdout s) (entropy s) (drawn s) v.

(** A process that has not built its [PasswordManager] yet: the files, the
    terminal and the entropy source are given, the object's fields are as
    [__init__] leaves them. *)
Definition fresh (tty : list string) (rnd : nat → nat)
    (kf df : option bytes) (mf : option string)
    (dk : list disk_event) : State :=
  mkState None None [] kf df mf tty [] rnd 0 dk.

(** ** The monad *)

Definition M (A : Type) : Type := State → outcome A * State.

Global Instance M_ret : MRet M := λ A a s, (Return a, s).
Global Instance M_bind : MBind M := λ A B f m s,
  match m s with
  | (Return a, s') => f a s'
  | (Raise e, s') => (Raise e, s')
  end.

Definition raise {A} (e : exn) : M A := λ s, (Raise e, s).
Definition get_state : M State := λ s, (Return s, s).
Definition modify (f : State → State) : M unit := λ s, (Return (), f s).

(** [try: body  except Exception as e: handler(e)]; what [body] did to the
    state before it raised stays done. *)
Definition try_except {A} (body : M A) (handler : exn → M A) : M A := λ s,
  match body s with
  | (Return a, s') => (Return a, s')
  | (Raise e, s') => handler e s'
  end.

(** [print(line)] *)
Definition print (line : string) : M unit :=
  modify (λ s, with_stdout (stdout s ++ [line]) s).

(** [getpass(prompt)]: the prompt goes to the terminal device, not to
    [stdout]; the next typed line is returned. *)
Definition getpass : M string := λ s,
  match tty_in s with
  | [] => (Raise EOFError, s)
  | line :: rest => (Return line, with_tty_in rest s)
  end.

(** One value from the operating system's entropy source. *)
Definition urandom : M nat := λ s,
  (Return (entropy s (drawn s)), with_drawn (S (drawn s)) s).

(** [secrets.choice(seq)]: [seq[randbelow(len(seq))]]. *)
Definition choice {A} (seq : list A) : M A :=
  match seq with
  | [] => raise IndexError
  | _ =>
      r ← urandom;
      match seq !! (r mod length seq) with
      | Some c => mret c
      | None => raise IndexError
      end
  end.

(** [secrets.SystemRandom().shuffle(x)], CPython's [Random.shuffle]:
    [for i in reversed(range(1, len(x))): j = randbelow(i + 1);
     x[i], x[j] = x[j], x[i]]. *)
Definition swap {A} (i j : nat) (x : list A) : list A :=
  match x !! i, x !! j with
  | Some xi, Some xj => <[j:=xi]> (<[i:=xj]> x)
  | _, _ => x
  end.

Fixpoint shuffle_from {A} (i : nat) (x : list A) : M (list A) :=
  match i with
  | 0 => mret x
  | S i' =>
      r ← urandom;
      shuffle_from i' (swap i (r mod S i) x)
  end.

Definition shuffle {A} (x : list A) : M (list A) :=
  shuffle_from (length x - 1) x.

(** [for _ in range(n): acc = body(acc)] *)
Fixpoint for_range {A} (n : nat) (body : A → M A) (acc : A) : M A :=
  match n with
  | 0 => mret acc
  | S n' => acc' ← body acc; for_range n' body acc'
  end.

(** [for x in xs: body(x)] *)
Fixpoint for_each {A} (xs : list A) (body : A → M unit) : M unit :=
  match xs with
  | [] => mret ()
  | x :: xs' => body x;; for_each xs' body
  end.

(** [with open(self.data_file, 'wb') as f: f.write(b)] *)
Definition write_data_file (b : bytes) : M unit := λ s,
  match disk s with
  | [] => (Return (), with_data_file (Some b) s)
  | WriteOk :: later => (Return (), with_disk later (with_data_file (Some b) s))
  | OpenFails :: later => (Raise OSError, with_disk later s)
  | WriteFails kept :: later =>
      (Raise OSError, with_disk later (with_data_file (Some (take kept b)) s))
  end.

(** ** The constants of the [string] module *)

Definition ascii_lowercase : string := "abcdefghijklmnopqrstuvwxyz".
Definition ascii_uppercase : string := "ABCDEFGHIJKLMNOPQRSTUVWXYZ".
Definition ascii_letters : string := ascii_lowercase +:+ ascii_uppercase.
Definition digits : string := "0123456789".
Definition punctuation : string :=
  "!" +:+ String (Ascii.ascii_of_nat 34) "#$%&'()*+,-./:;<=>?@[\]^_`{|}~".

Definition nl : string := String (Ascii.ascii_of_nat 10) EmptyString.

(** ** The imported libraries *)

Class PyLib := {
  (** [s.lower()] *)
  str_lower : string → string;
  (** [s.encode()] and [b.decode()]; [None]: [UnicodeDecodeError] *)
  str_encode : string → bytes;
  bytes_decode : bytes → option string;
  (** [hashlib.sha256(b).hexdigest()] *)
  sha256_hexdigest : bytes → string;
  (** [Fernet.generate_key()], from one reading of the entropy source *)
  Fernet_generate_key : nat → bytes;
  (** whether [Fernet(key)] accepts the key: 32 bytes, url-safe base64 *)
  Fernet_key_ok : bytes → bool;
  (** [Fernet(key).encrypt(data)]; the second argument is the entropy that
      becomes the token's initialisation vector and time stamp *)
  Fernet_encrypt : bytes → nat → bytes → bytes;
  (** [Fernet(key).decrypt(token)]; [None]: [InvalidToken] *)
  Fernet_decrypt : bytes → bytes → option bytes;
  (** [json.dumps(d, indent=2)] and [json.loads(s)] on credential mappings;
      [None]: [JSONDecodeError] *)
  json_dumps : dict → string;
  json_loads : string → option dict;
  (** [str(e)], as an f-string renders a caught exception *)
  exn_str : exn → string
}.

(** What the libraries promise. *)
Definition lower_empty_law `{PyLib} : Prop :=
  str_lower EmptyString = EmptyString.
Definition decode_encode_law `{PyLib} : Prop :=
  ∀ s, bytes_decode (str_encode s) = Some s.
Definition generate_key_law `{PyLib} : Prop :=
  ∀ r, Fernet_key_ok (Fernet_generate_key r) = true.
Definition decrypt_encrypt_law `{PyLib} : Prop :=
  ∀ k iv p, Fernet_key_ok k = true →
    Fernet_decrypt k (Fernet_encrypt k iv p) = Some p.
Definition loads_dumps_law `{PyLib} : Prop :=
  ∀ d, wf_dict d → json_loads (json_dumps d) = Some d.

(** ** The methods of [PasswordManager] *)

Section PasswordManager.
Context `{L : PyLib}.

Definition _hash_password (password : string) : string :=
  sha256_hexdigest (str_encode password).

Definition _save_master_hash (password : string) : M unit :=
  modify (with_master_hash_file (Some (_hash_password password))).

(** Called only where the file is known to exist. *)
Definition _load_master_hash : M string := λ s,
  match master_hash_file s with
  | Some h => (Return h, s)
  | None => (Raise OSError, s)
  end.

Definition _initialize_encryption : M unit :=
  s ← get_state;
  k ← match key_file s with
      | Some k => modify (with_key (Some k));; mret k
      | None =>
          r ← urandom;
          let k := Fernet_generate_key r in
          modify (with_key (Some k));;
          modify (with_key_file (Some k));;
          mret k
      end;
  if Fernet_key_ok k then modify (with_cipher (Some k)) else raise ValueError.

Definition _load_passwords : M dict :=
  s ← get_state;
  match data_file s with
  | None => mret []
  | Some encrypted_data =>
      try_except
        (match cipher s with
         | None => raise AttributeError
         | Some k =>
             match Fernet_decrypt k encrypted_data with
             | None => raise InvalidToken
             | Some decrypted_data =>
                 match bytes_decode decrypted_data with
                 | None => raise UnicodeDecodeError
                 | Some text =>
                     match json_loads text with
                     | None => raise JSONDecodeError
                     | Some d => mret d
                     end
                 end
             end
         end)
        (λ e, print ("Error loading passwords: " +:+ exn_str e);; mret [])
  end.

Definition _save_passwords : M unit :=
  try_except
    (s ← get_state;
     let data := str_encode (json_dumps (passwords s)) in
     match cipher s with
     | None => raise AttributeError
     | Some k =>
         iv ← urandom;
         let encrypted_data := Fernet_encrypt k iv data in
         write_data_file encrypted_data
     end)
    (λ e, print ("Error saving passwords: " +:+ exn_str e)).

Definition setup_master_password : M bool :=
  s ← get_state;
  proceed ←
    match master_hash_file s with
    | Some _ =>
        stored_hash ← _load_master_hash;
        master ← getpass;
        if decide (_hash_password master ≠ stored_hash) then
          print "❌ Incorrect master password!";; mret false
        else mret true
    | None =>
        print "First time setup - Create a master password";;
        master ← getpass;
        confirm ← getpass;
        if decide (master ≠ confirm) then
          print "❌ Passwords don't match!";; mret false
        else
          _save_master_hash master;;
          print "✓ Master password created!";;
          mret true
    end;
  if proceed : bool then
    _initialize_encryption;;
    d ← _load_passwords;
    modify (with_passwords d);;
    mret true
  else mret false.

Definition generate_password (length : Z) (use_symbols use_numbers : bool)
    : M string :=
  let chars := ascii_letters in
  let chars := if use_numbers then chars +:+ digits else chars in
  let chars := if use_symbols then chars +:+ punctuation else chars in
  let password : list ascii := [] in
  password ← (if use_numbers
              then c ← choice (String.list_ascii_of_string digits);
                   mret (password ++ [c])
              else mret password);
  password ← (if use_symbols
              then c ← choice (String.list_ascii_of_string punctuation);
                   mret (password ++ [c])
              else mret password);
  c ← choice (String.list_ascii_of_string ascii_lowercase);
  let password := password ++ [c] in
  c ← choice (String.list_ascii_of_string ascii_uppercase);
  let password := password ++ [c] in
  password ← for_range (Z.to_nat (length - Z.of_nat (List.length password)))
               (λ password, c ← choice (String.list_ascii_of_string chars);
                            mret (password ++ [c]))
               password;
  password ← shuffle password;
  mret (String.string_of_list_ascii password).

(** [password=None] is [None] here, a given password is [Some]. *)
Definition add_password (service username : string)
    (password : option string) : M unit :=
  password ← match password with
             | None =>
                 password ← generate_password 16 true true;
                 print (nl +:+ "🔑 Generated password: " +:+ password);;
                 mret password
             | Some password => mret password
             end;
  modify (λ s, with_passwords
                 (dict_set (str_lower service)
                           (Entry.mk service username password)
                           (passwords s)) s);;
  _save_passwords;;
  print ("✓ Password saved for " +:+ service).

Definition get_password (service : string) : M (option entry) :=
  let service_key := str_lower service in
  s ← get_state;
  if dict_contains service_key (passwords s)
  then mret (dict_get service_key (passwords s))
  else mret None.

Definition delete_password (service : string) : M unit :=
  let service_key := str_lower service in
  s ← get_state;
  if dict_contains service_key (passwords s) then
    match dict_get service_key (passwords s) with
    | None => raise KeyError
    | Some e =>
        let service_name := Entry.service e in
        modify (with_passwords (dict_del service_key (passwords s)));;
        _save_passwords;;
        print ("✓ Password deleted for " +:+ service_name)
    end
  else
    print ("❌ No password found for " +:+ service).

Definition list_services : M unit :=
  s ← get_state;
  match passwords s with
  | [] => print (nl +:+ "📝 No passwords stored yet")
  | _ =>
      print (nl +:+ "=== STORED SERVICES ===");;
      for_each (zip (seq 1 (length (passwords s))) (passwords s))
        (λ '(i, (_, data)),
           print (pretty i +:+ ". " +:+ Entry.service data +:+
                  " (" +:+ Entry.username data +:+ ")"))
  end.

(** The condition of the comprehension in [search]. *)
Definition search_cond (query_lower : string) (k : string) (v : entry) : bool :=
  str_in query_lower k || str_in query_lower (str_lower (Entry.username v)).

Definition search (query : string) : M dict :=
  let query_lower := str_lower query in
  s ← get_state;
  let results := dict_comprehension (search_cond query_lower) (passwords s) in
  match results with
  | _ :: _ =>
      print (nl +:+ "🔍 Found " +:+ pretty (length results) +:+ " match(es):");;
      for_each results.*2
        (λ data, print ("  • " +:+ Entry.service data +:+
                        " (" +:+ Entry.username data +:+ ")"))
  | [] => print "❌ No matches found"
  end;;
  mret results.

Definition update_password (service : string) (new_password : option string)
    : M unit :=
  let service_key := str_lower service in
  s ← get_state;
  if negb (dict_contains service_key (passwords s)) then
    print ("❌ Service " +:+ service +:+ " not found")
  else
    new_password ← match new_password with
                   | None =>
                       new_password ← generate_password 16 true true;
                       print (nl +:+ "🔑 Generated password: " +:+ new_password);;
                       mret new_password
                   | Some new_password => mret new_password
                   end;
    s ← get_state;
    match dict_get service_key (passwords s) with
    | None => raise KeyError
    | Some e =>
        modify (with_passwords
                  (dict_set service_key (set_password new_password e)
                            (passwords s)))
    end;;
    _save_passwords;;
    s ← get_state;
    match dict_get service_key (passwords s) with
    | None => raise KeyError
    | Some e => print ("✓ Password updated for " +:+ Entry.service e)
    end.

End PasswordManager.

(** ** A small lawful library

    Stand-ins for the imported libraries, simple enough to run inside Rocq:
    they let the embedding be evaluated on concrete inputs, and they show
    that the laws above can be met together. *)

Module Toy.

Definition lower_ascii (c : ascii) : ascii :=
  let n := nat_of_ascii c in
  if (65 <=? n) && (n <=? 90) then ascii_of_nat (n + 32) else c.

Fixpoint lower (s : string) : string :=
  match s with
  | EmptyString => EmptyString
  | String c s' => String (lower_ascii c) (lower s')
  end.

Definition encode (s : string) : bytes := String.list_byte_of_string s.
Definition decode (b : bytes) : option string :=
  Some (String.string_of_list_byte b).

Definition digest (b : bytes) : string :=
  "h:" +:+ String.string_of_list_byte (reverse b).

Definition generate_key (r : nat) : bytes := [byte_of_ascii (ascii_of_nat r)].
Definition key_ok (k : bytes) : bool := bool_decide (length k = 1).

(** A token is the key, one byte of the initialisation vector and the
    plain text; a token under another key is rejected. *)
Definition encrypt (k : bytes) (iv : nat) (p : bytes) : bytes :=
  k ++ byte_of_ascii (ascii_of_nat iv) :: p.

Fixpoint strip (k c : bytes) : option bytes :=
  match k, c with
  | [], _ => Some c
  | x :: k', y :: c' => if decide (x = y) then strip k' c' else None
  | _ :: _, [] => None
  end.

Definition decrypt (k c : bytes) : option bytes :=
  match strip k c with
  | Some (_ :: p) => Some p
  | _ => None
  end.

(** A string is written as its length in unary, a ["0"], and its
    characters; a mapping is the run of its keys and fields. *)
Fixpoint ones (n : nat) (rest : string) : string :=
  match n with
  | 0 => rest
  | S n' => String "1" (ones n' rest)
  end.

Definition put_str (s rest : string) : string :=
  ones (String.length s) (String "0" (s +:+ rest)).

Fixpoint dumps (d : dict) : string :=
  match d with
  | [] => EmptyString
  | (k, e) :: d' =>
      put_str k (put_str (Entry.service e) (put_str (Entry.username e)
        (put_str (Entry.password e) (dumps d'))))
  end.

Fixpoint count_ones (s : string) : option (nat * string) :=
  match s with
  | EmptyString => None
  | String c s' =>
      if decide (c = "1"%char) then
        match count_ones s' with
        | Some (n, r) => Some (S n, r)
        | None => None
        end
      else if decide (c = "0"%char) then Some (0, s')
      else None
  end.

Fixpoint split_at (n : nat) (s : string) : option (string * string) :=
  match n, s with
  | 0, _ => Some (EmptyString, s)
  | S n', String c s' =>
      match split_at n' s' with
      | Some (a, b) => Some (String c a, b)
      | None => None
      end
  | S _, EmptyString => None
  end.

Definition get_str (s : string) : option (string * string) :=
  match count_ones s with
  | Some (n, r) => split_at n r
  | None => None
  end.

Fixpoint loads_fuel (fuel : nat) (s : string) : option dict :=
  match s, fuel with
  | EmptyString, _ => Some []
  | _, 0 => None
  | _, S fuel' =>
      '(k, r) ← get_str s;
      '(sv, r) ← get_str r;
      '(u, r) ← get_str r;
      '(p, r) ← get_str r;
      d ← loads_fuel fuel' r;
      Some ((k, Entry.mk sv u p) :: d)
  end.

Definition loads (s : string) : option dict :=
  loads_fuel (String.length s) s.

Definition render (e : exn) : string :=
  match e with
  | AttributeError => "'NoneType' object has no attribute"
  | InvalidToken => EmptyString
  | UnicodeDecodeError => "invalid start byte"
  | JSONDecodeError => "Expecting value"
  | ValueError => "Fernet key must be 32 url-safe base64-encoded bytes."
  | OSError => "[Errno 28] No space left on device"
  | EOFError => EmptyString
  | IndexError => "Cannot choose from an empty sequence"
  | KeyError => EmptyString
  end.

Definition lib : PyLib := {|
  str_lower := lower;
  str_encode := encode;
  bytes_decode := decode;
  sha256_hexdigest := digest;
  Fernet_generate_key := generate_key;
  Fernet_key_ok := key_ok;
  Fernet_encrypt := encrypt;
  Fernet_decrypt := decrypt;
  json_dumps := dumps;
  json_loads := loads;
  exn_str := render
|}.

End Toy.

(** ** Character classes, by character code *)

Definition is_lower (c : ascii) : bool :=
  (97 <=? nat_of_ascii c) && (nat_of_ascii c <=? 122).
Definition is_upper (c : ascii) : bool :=
  (65 <=? nat_of_ascii c) && (nat_of_ascii c <=? 90).
Definition is_digit (c : ascii) : bool :=
  (48 <=? nat_of_ascii c) && (nat_of_ascii c <=? 57).
Definition is_letter (c : ascii) : bool := is_lower c || is_upper c.
(** The punctuation of ASCII: what is printable and neither a letter, a
    digit nor the space. *)
Definition is_symbol (c : ascii) : bool :=
  (33 <=? nat_of_ascii c) && (nat_of_ascii c <=? 47)
  || (58 <=? nat_of_ascii c) && (nat_of_ascii c <=? 64)
  || (91 <=? nat_of_ascii c) && (nat_of_ascii c <=? 96)
  || (123 <=? nat_of_ascii c) && (nat_of_ascii c <=? 126).

(** The characters a password may be made of. *)
Definition allowed (use_symbols use_numbers : bool) (c : ascii) : bool :=
  is_letter c || use_numbers && is_digit c || use_symbols && is_symbol c.

(** How many characters [generate_password] draws before it fills: one per
    requested class. *)
Definition mandatory_count (use_symbols use_numbers : bool) : Z :=
  (2 + (if use_numbers then 1 else 0) + (if use_symbols then 1 else 0))%Z.

Definition chars_of (s : string) : list ascii := String.list_ascii_of_string s.

(** ** Runs that return

    [returns m s Q]: started in [s], the computation [m] comes back with a
    value and a state that satisfy [Q]; it does not raise. *)

Definition returns {A} (m : M A) (s : State) (Q : A → State → Prop) : Prop :=
  ∃ a s', m s = (Return a, s') ∧ Q a s'.

(** ** Notions the statements use *)

Section notions.
Context `{L : PyLib}.

(** The token [_save_passwords] hands to the file system in state [s], the
    cipher holding key [k]. *)
Definition token (s : State) (k : bytes) : bytes :=
  Fernet_encrypt k (entropy s (drawn s)) (str_encode (json_dumps (passwords s))).

(** The lines the two [except] blocks print. *)
Definition save_error (e : exn) : string :=
  "Error saving passwords: " +:+ exn_str e.
Definition load_error (e : exn) : string :=
  "Error loading passwords: " +:+ exn_str e.

(** The state [_save_passwords] leaves behind. *)
Definition after_save (s : State) : State := (_save_passwords s).2.

(** [Fernet] will accept the key [_initialize_encryption] ends up with: the
    one in the key file or, without a key file, the one it generates. *)
Definition key_file_usable (s : State) : Prop :=
  match key_file s with
  | Some k => Fernet_key_ok k = true
  | None => Fernet_key_ok (Fernet_generate_key (entropy s (drawn s))) = true
  end.

(** Every key is the lowercased service name of its record, and no key
    occurs twice. *)
Definition vault_inv (d : dict) : Prop :=
  wf_dict d ∧ Forall (λ kv, kv.1 = str_lower (Entry.service kv.2)) d.

End notions.

(** The coming write to [passwords.enc] goes through, or does not. *)
Definition write_succeeds (s : State) : Prop :=
  match disk s with
  | [] | WriteOk :: _ => True
  | _ => False
  end.
Definition write_fails (s : State) : Prop :=
  match disk s with
  | OpenFails :: _ | WriteFails _ :: _ => True
  | _ => False
  end.

(** [s] contains [q]: some text, [q], some text. *)
Definition occurs_in (q s : string) : Prop := ∃ a b, s = a +:+ q +:+ b.

(** ** Concrete runs *)

Module Demo.

Definition entropy_stream (n : nat) : nat := 7 * n + 3.

(** A first start: no file exists yet; the user types the new master
    password twice. *)
Definition first_run : State :=
  fresh ["pw"; "pw"] entropy_stream None None None [].

(** The key the first start generates, and the hash it stores. *)
Definition key : bytes := Toy.generate_key (entropy_stream 0).
Definition stored_hash : string := Toy.digest (Toy.encode "pw").

(** After [setup_master_password]: the key and the hash are on disk, the
    cipher is ready, the vault is empty. *)
Definition unlocked : State :=
  (setup_master_password (L:=Toy.lib) first_run).2.

(** One record was added and saved. *)
Definition with_gmail : State :=
  (add_password (L:=Toy.lib) "Gmail" "alice" (Some "s3cret") unlocked).2.

(** The same, but the vault file was overwritten with other bytes. *)
Definition junk : bytes := [Byte.x6a; Byte.x75; Byte.x6e; Byte.x6b].
Definition damaged : State := with_data_file (Some junk) with_gmail.

(** The same as [unlocked], but the disk is full: the next write fails
    after the file was truncated. *)
Definition disk_full : State := with_disk [WriteFails 0] unlocked.

(** The vault of the specification's search example. *)
Definition two_gits : State :=
  (add_password (L:=Toy.lib) "Gitlab" "bob" (Some "b0b")
     (add_password (L:=Toy.lib) "GitHub" "alice" (Some "al1ce") unlocked).2).2.

(** A later start on a key file that holds no [Fernet] key. *)
Definition bad_key_run : State :=
  fresh ["pw"] entropy_stream (Some junk) (data_file with_gmail)
    (master_hash_file with_gmail) [].

(** A later start of the program on the files [with_gmail] left, the user
    typing the line [typed]. *)
Definition later_run (typed : string) : State :=
  fresh [typed] entropy_stream (key_file with_gmail) (data_file with_gmail)
    (master_hash_file with_gmail) [].

End Demo.

(** ** Notions for the further properties *)

(** What [list_services] prints for a vault. *)
Definition service_lines (d : dict) : list string :=
  match d with
  | [] => [nl +:+ "📝 No passwords stored yet"]
  | _ =>
      (nl +:+ "=== STORED SERVICES ===")
      :: imap (λ i kv, pretty (S i) +:+ ". " +:+ Entry.service kv.2 +:+
                       " (" +:+ Entry.username kv.2 +:+ ")") d
  end.

(** From [s] to [s'] no key file and no master hash file was replaced or
    removed. *)
Definition secrets_kept (s s' : State) : Prop :=
  (∀ k, key_file s = Some k → key_file s' = Some k) ∧
  (∀ h, master_hash_file s = Some h → master_hash_file s' = Some h).

(** However [m] ends when started in [s]. *)
Definition keeps_secrets {A} (m : M A) (s : State) : Prop :=
  ∀ r s', m s = (r, s') → secrets_kept s s'.

(** ** The rest of the script: the export and the menu *)

(** The builtins the menu and the export use besides those of [PyLib]. *)
Class PyText := {
  (** [s.strip()] *)
  str_strip : string → string;
  (** [int(s)]; [None]: [ValueError] *)
  int_of_str : string → option Z;
  (** the file [open(path, 'w')] opens, from the working directory of the
      process: two paths with the same value are the same file, however
      they are spelled; [None]: the path cannot be opened for writing, and
      [open] raises [OSError] *)
  path_file : string → option string
}.

(** [s * n] *)
Fixpoint str_mul (s : string) (n : nat) : string :=
  match n with
  | 0 => EmptyString
  | S n' => s +:+ str_mul s n'
  end.

(** [PasswordManager()] *)
Definition __init__ : M unit :=
  modify (λ s, with_passwords [] (with_cipher None (with_key None s))).

(** [input(prompt)]: the prompt is written to the output, without a line
    end, and the next typed line is returned. *)
Definition input (prompt : string) : M string := λ s,
  let s := with_stdout (stdout s ++ [prompt]) s in
  match tty_in s with
  | [] => (Raise EOFError, s)
  | line :: rest => (Return line, with_tty_in rest s)
  end.

(** The process: the object with its three files and the terminal, and the
    other files, each under the value [path_file] gives its paths. *)
Record Process := mkProcess {
  pm : State;
  directory : gmap string string
}.

Definition W (A : Type) : Type := Process → outcome A * Process.

Global Instance W_ret : MRet W := λ A a w, (Return a, w).
Global Instance W_bind : MBind W := λ A B f m w,
  match m w with
  | (Return a, w') => f a w'
  | (Raise e, w') => (Raise e, w')
  end.

(** A computation on the object, run in the process. *)
Definition lift {A} (m : M A) : W A := λ w,
  let '(r, s) := m (pm w) in (r, mkProcess s (directory w)).

Section script.
Context `{L : PyLib} `{T : PyText}.

(** [with open(filename, 'w') as f: f.write(text)]. The file written is
    the one the path names: one of the three files of the object, when the
    path names the file that the name [__init__] gave it names, and else a
    file of the directory. Once the file is open, the write goes through. *)
Definition write_text_file (filename text : string) : W unit := λ w,
  match path_file filename with
  | None => (Raise OSError, w)
  | Some file =>
      if decide (path_file ".secret.key" = Some file) then
        (Return (),
         mkProcess (with_key_file (Some (str_encode text)) (pm w))
           (directory w))
      else if decide (path_file "passwords.enc" = Some file) then
        (Return (),
         mkProcess (with_data_file (Some (str_encode text)) (pm w))
           (directory w))
      else if decide (path_file ".master.hash" = Some file) then
        (Return (),
         mkProcess (with_master_hash_file (Some text) (pm w)) (directory w))
      else
        (Return (), mkProcess (pm w) (<[file := text]> (directory w)))
  end.

(** [json.dump(d, f, indent=2)] writes the text [json.dumps(d, indent=2)]
    returns. *)
Definition export_passwords (filename : string) : W unit :=
  confirm ← lift (input "⚠️  This will export passwords unencrypted. Continue? (yes/no): ");
  if decide (str_lower confirm ≠ "yes") then
    lift (print "Export cancelled")
  else
    s ← lift get_state;
    write_text_file filename (json_dumps (passwords s));;
    lift (print ("✓ Passwords exported to " +:+ filename));;
    lift (print "⚠️  Keep this file secure and delete it after use!").

(** The body of [while True], in two parts: the chain of [if]/[elif] on
    the choice, and before it the menu and the reading of the choice.
    [false] is [break]. *)
Definition main_body_read : M string :=
  print (nl +:+ str_mul "=" 50);;
  print "1. Add new password";;
  print "2. Get password";;
  print "3. List all services";;
  print "4. Search services";;
  print "5. Update password";;
  print "6. Delete password";;
  print "7. Generate password only";;
  print "8. Export passwords (backup)";;
  print "9. Exit";;
  print (str_mul "=" 50);;
  choice ← input (nl +:+ "Enter your choice (1-9): ");
  mret (str_strip choice).

Definition main_dispatch (choice : string) : W bool :=
  if decide (choice = "1") then
    lift (
      service ← input "Service name (e.g., Gmail, Facebook): ";
      username ← input "Username/Email: ";
      use_gen ← input "Generate password? (y/n): ";
      let use_gen := str_lower use_gen in
      if decide (use_gen = "y") then
        length ← input "Password length (default 16): ";
        length ← (if decide (length = EmptyString) then mret 16%Z
                  else match int_of_str length with
                       | Some n => mret n
                       | None => raise ValueError
                       end);
        add_password service username None
      else
        pwd ← getpass;
        add_password service username (Some pwd));;
    mret true
  else if decide (choice = "2") then
    lift (
      service ← input "Service name: ";
      info ← get_password service;
      match info with
      | Some info =>
          print (nl +:+ str_mul "=" 50);;
          print ("Service: " +:+ Entry.service info);;
          print ("Username: " +:+ Entry.username info);;
          print ("Password: " +:+ Entry.password info);;
          print (str_mul "=" 50)
      | None => print "❌ Service not found"
      end);;
    mret true
  else if decide (choice = "3") then
    lift list_services;;
    mret true
  else if decide (choice = "4") then
    lift (query ← input "Search query: "; search query);;
    mret true
  else if decide (choice = "5") then
    lift (
      service ← input "Service name: ";
      use_gen ← input "Generate new password? (y/n): ";
      let use_gen := str_lower use_gen in
      if decide (use_gen = "y") then update_password service None
      else
        pwd ← getpass;
        update_password service (Some pwd));;
    mret true
  else if decide (choice = "6") then
    lift (
      service ← input "Service name to delete: ";
      confirm ← input ("Delete password for " +:+ service +:+ "? (yes/no): ");
      if decide (str_lower confirm = "yes") then delete_password service
      else mret ());;
    mret true
  else if decide (choice = "7") then
    lift (
      length ← input "Password length (default 16): ";
      length ← (if decide (length = EmptyString) then mret 16%Z
                else match int_of_str length with
                     | Some n => mret n
                     | None => raise ValueError
                     end);
      symbols ← input "Include symbols? (y/n): ";
      let symbols := bool_decide (str_lower symbols = "y") in
      numbers ← input "Include numbers? (y/n): ";
      let numbers := bool_decide (str_lower numbers = "y") in
      password ← generate_password length symbols numbers;
      print (nl +:+ "🔑 Generated: " +:+ password));;
    mret true
  else if decide (choice = "8") then
    export_passwords "passwords_backup.json";;
    mret true
  else if decide (choice = "9") then
    lift (print (nl +:+ "🔒 Passwords saved securely. Goodbye!"));;
    mret false
  else
    lift (print "❌ Invalid choice! Please try again.");;
    mret true.

Definition main_body : W bool :=
  choice ← lift main_body_read;
  main_dispatch choice.

(** [while True: ...], for at most [fuel] rounds; [None]: the rounds were
    used up before the loop ended. *)
Fixpoint main_loop (fuel : nat) (w : Process)
    : option (outcome unit * Process) :=
  match fuel with
  | 0 => None
  | S fuel' =>
      match main_body w with
      | (Return true, w') => main_loop fuel' w'
      | (Return false, w') => Some (Return (), w')
      | (Raise e, w') => Some (Raise e, w')
      end
  end.

Definition main (fuel : nat) (w : Process)
    : option (outcome unit * Process) :=
  match lift (__init__;;
              print (str_mul "=" 50);;
              print "🔐 SECURE PASSWORD MANAGER";;
              print (str_mul "=" 50);;
              setup_master_password) w with
  | (Return true, w') =>
      match lift (print (nl +:+ "✓ Access granted!")) w' with
      | (Return _, w'') => main_loop fuel w''
      | (Raise e, w'') => Some (Raise e, w'')
      end
  | (Return false, w') => Some (Return (), w')
  | (Raise e, w') => Some (Raise e, w')
  end.

End script.

(** Stand-ins for the two builtins, to run the menu on concrete input. *)
Module ToyText.

Definition is_space (c : ascii) : bool := bool_decide (c = " "%char).

Fixpoint lstrip (l : list ascii) : list ascii :=
  match l with
  | [] => []
  | c :: l' => if is_space c then lstrip l' else l
  end.

Definition strip (s : string) : string :=
  String.string_of_list_ascii
    (reverse (lstrip (reverse (lstrip (String.list_ascii_of_string s))))).

Fixpoint digits_value (acc : Z) (l : list ascii) : option Z :=
  match l with
  | [] => Some acc
  | c :: l' =>
      if is_digit c
      then digits_value (10 * acc + (Z.of_nat (nat_of_ascii c) - 48))%Z l'
      else None
  end.

Definition int_of (s : string) : option Z :=
  match String.list_ascii_of_string s with
  | [] => None
  | l => digits_value 0 l
  end.

(** Paths: a leading [./] names the same file; the empty path names
    none. *)
Fixpoint drop_dot_slash (s : string) : string :=
  match s with
  | String "." (String "/" s') => drop_dot_slash s'
  | _ => s
  end.

Definition file_of (s : string) : option string :=
  match drop_dot_slash s with
  | EmptyString => None
  | file => Some file
  end.

Definition text : PyText :=
  {| str_strip := strip; int_of_str := int_of; path_file := file_of |}.

End ToyText.

Module DemoScript.

(** A first start of the program in an empty directory, the user typing
    the lines [typed]. *)
Definition start (typed : list string) : Process :=
  mkProcess (fresh typed Demo.entropy_stream None None None []) ∅.

(** The unlocked session of [Demo.with_gmail], with lines still to type. *)
Definition session (typed : list string) : Process :=
  mkProcess (with_tty_in typed Demo.with_gmail) ∅.

(** A later start on the files [Demo.with_gmail] left. *)
Definition later (typed : list string) : Process :=
  mkProcess
    (fresh typed Demo.entropy_stream (key_file Demo.with_gmail)
       (data_file Demo.with_gmail) (master_hash_file Demo.with_gmail) [])
    ∅.

End DemoScript.

(** What a round of the menu writes before it reads the choice. *)
Definition menu_lines : list string :=
  [nl +:+ str_mul "=" 50; "1. Add new password"; "2. Get password";
   "3. List all services"; "4. Search services"; "5. Update password";
   "6. Delete password"; "7. Generate password only";
   "8. Export passwords (backup)"; "9. Exit"; str_mul "=" 50;
   nl +:+ "Enter your choice (1-9): "].

(** However [m] ends, it leaves no more lines to type than there were. *)
Definition reads_only {A} (m : M A) (s : State) : Prop :=
  ∀ r s', m s = (r, s') → length (tty_in s') ≤ length (tty_in s).
Definition reads_only_W {A} (m : W A) (w : Process) : Prop :=
  ∀ r w', m w = (r, w') → length (tty_in (pm w')) ≤ length (tty_in (pm w)).

(** * Properties *)

(** ** Dictionaries *)

Section dict_facts.
Implicit Types (d : dict) (k : string) (v : entry).

Lemma dict_get_None k d : dict_get k d = None ↔ k ∉ d.*1.
Proof.
  induction d as [|[k' v'] d IH]; simpl.
  - split; [intros _; apply not_elem_of_nil | done].
  - rewrite not_elem_of_cons. destruct (decide (k = k')) as [->|Hne].
    + split; [done | intros [? _]; done].
    + rewrite IH. tauto.
Qed.

Lemma dict_get_Some k v d : dict_get k d = Some v → (k, v) ∈ d.
Proof.
  induction d as [|[k' v'] d IH]; simpl; [done|].
  destruct (decide (k = k')) as [->|]; intros Hg.
  - injection Hg as ->. apply list_elem_of_here.
  - apply list_elem_of_further; auto.
Qed.

Lemma dict_contains_true k d : dict_contains k d = true ↔ k ∈ d.*1.
Proof.
  unfold dict_contains. destruct (dict_get k d) eqn:Hg.
  - split; [intros _|done].
    apply dict_get_Some in Hg. apply list_elem_of_fmap. by exists (k, t).
  - apply dict_get_None in Hg. split; [done|]. intros ?. contradiction.
Qed.

Lemma dict_get_set k v d : dict_get k (dict_set k v d) = Some v.
Proof.
  induction d as [|[k' v'] d IH]; simpl.
  - by rewrite decide_True.
  - destruct (decide (k = k')); simpl.
    + by rewrite decide_True.
    + by rewrite decide_False.
Qed.

Lemma dict_get_set_ne k k' v d :
  k ≠ k' → dict_get k' (dict_set k v d) = dict_get k' d.
Proof.
  intros Hne. induction d as [|[k0 v0] d IH]; simpl.
  - rewrite decide_False; [done | congruence].
  - destruct (decide (k = k0)) as [->|]; simpl.
    + rewrite !decide_False; [done | congruence | congruence].
    + by rewrite IH.
Qed.

(** Assigning to a key that is not there appends the item. *)
Lemma dict_set_fresh k v d : k ∉ d.*1 → dict_set k v d = d ++ [(k, v)].
Proof.
  induction d as [|[k' v'] d IH]; simpl; [done|].
  rewrite not_elem_of_cons. intros [Hne Hk].
  rewrite decide_False; [|done]. by rewrite IH.
Qed.

(** Assigning to a key that is there changes neither the keys nor their
    order. *)
Lemma dict_set_keys_present k v d : k ∈ d.*1 → (dict_set k v d).*1 = d.*1.
Proof.
  induction d as [|[k' v'] d IH]; simpl.
  - intros Hin. by apply elem_of_nil in Hin.
  - intros Hin. destruct (decide (k = k')) as [->|Hne]; simpl; [done|].
    f_equal. apply IH. apply elem_of_cons in Hin as [?|?]; [done|auto].
Qed.

Lemma dict_set_keys k v d :
  (dict_set k v d).*1 = if dict_contains k d then d.*1 else d.*1 ++ [k].
Proof.
  destruct (dict_contains k d) eqn:Hc.
  - apply dict_set_keys_present. by apply dict_contains_true.
  - rewrite dict_set_fresh, fmap_app; [done|].
    intros Hin. apply dict_contains_true in Hin. congruence.
Qed.

Lemma dict_set_length_present k v d :
  k ∈ d.*1 → length (dict_set k v d) = length d.
Proof.
  intros Hin. rewrite <- (length_fmap fst (dict_set k v d)).
  by rewrite dict_set_keys_present, length_fmap.
Qed.

Lemma wf_dict_nil : wf_dict [].
Proof. apply NoDup_nil_2. Qed.

Lemma wf_dict_set k v d : wf_dict d → wf_dict (dict_set k v d).
Proof.
  unfold wf_dict. intros Hnd. rewrite dict_set_keys.
  destruct (dict_contains k d) eqn:Hc; [done|].
  apply NoDup_app. repeat split; [done| |apply NoDup_singleton].
  intros x Hx Hx'. apply list_elem_of_singleton in Hx' as ->.
  apply dict_contains_true in Hx. congruence.
Qed.

Lemma dict_del_subset k (x : string) d : x ∈ (dict_del k d).*1 → x ∈ d.*1.
Proof.
  induction d as [|[k' v'] d IH]; simpl; [done|].
  destruct (decide (k = k')); simpl.
  - apply list_elem_of_further.
  - rewrite !elem_of_cons. intros [?|?]; [by left | right; auto].
Qed.

Lemma wf_dict_del k d : wf_dict d → wf_dict (dict_del k d).
Proof.
  unfold wf_dict. induction d as [|[k' v'] d IH]; simpl; [done|].
  rewrite NoDup_cons. intros [Hk' Hnd].
  destruct (decide (k = k')); simpl; [done|].
  apply NoDup_cons. split; [|auto].
  intros Hin. apply Hk'. eapply dict_del_subset, Hin.
Qed.

Lemma dict_get_del k d : wf_dict d → dict_get k (dict_del k d) = None.
Proof.
  unfold wf_dict. induction d as [|[k' v'] d IH]; simpl; [done|].
  rewrite NoDup_cons. intros [Hk' Hnd].
  destruct (decide (k = k')) as [->|Hne]; simpl.
  - by apply dict_get_None.
  - rewrite decide_False; [auto|done].
Qed.

Lemma dict_get_del_ne k k' d :
  k ≠ k' → dict_get k' (dict_del k d) = dict_get k' d.
Proof.
  intros Hne. induction d as [|[k0 v0] d IH]; simpl; [done|].
  destruct (decide (k = k0)) as [->|]; simpl.
  - rewrite decide_False; [done | congruence].
  - by rewrite IH.
Qed.

Lemma dict_del_elem_of k (x : string) v d : (x, v) ∈ dict_del k d → (x, v) ∈ d.
Proof.
  induction d as [|[k' v'] d IH]; simpl; [done|].
  destruct (decide (k = k')); simpl.
  - apply list_elem_of_further.
  - rewrite !elem_of_cons. intros [?|?]; [by left | right; auto].
Qed.

Lemma dict_set_elem_of k v (x : string) (w : entry) d :
  (x, w) ∈ dict_set k v d → (x, w) = (k, v) ∨ (x, w) ∈ d.
Proof.
  induction d as [|[k' v'] d IH]; simpl.
  - rewrite list_elem_of_singleton. auto.
  - destruct (decide (k = k')); rewrite !elem_of_cons.
    + intros [?|?]; auto.
    + intros [?|Hin]; [auto | destruct (IH Hin); auto].
Qed.

(** A comprehension over the items of a dictionary keeps exactly the items
    that meet the condition, in their order. *)
Lemma dict_comprehension_from (cond : string → entry → bool)
    (items acc : dict) :
  wf_dict (acc ++ items) →
  fold_left (λ (acc : dict) (kv : string * entry),
               if cond kv.1 kv.2 then dict_set kv.1 kv.2 acc else acc)
            items acc
  = acc ++ filter (λ kv : string * entry, cond kv.1 kv.2 = true) items.
Proof.
  unfold wf_dict. revert acc.
  induction items as [|[k v] items IH]; intros acc Hnd.
  - simpl. by rewrite app_nil_r.
  - rewrite filter_cons. simpl.
    assert (Hk : k ∉ acc.*1).
    { rewrite fmap_app in Hnd. apply NoDup_app in Hnd as (_ & Hd & _).
      intros Hin. apply (Hd k Hin). simpl. apply list_elem_of_here. }
    destruct (cond k v) eqn:Hc.
    + rewrite decide_True; [|done].
      rewrite dict_set_fresh; [|done].
      rewrite IH; [by rewrite <- app_assoc|].
      by rewrite <- app_assoc.
    + rewrite decide_False; [|congruence].
      apply IH.
      rewrite fmap_app in Hnd. rewrite fmap_app.
      apply NoDup_app in Hnd as (Ha & Hd & Hi). simpl in Hi.
      apply NoDup_cons in Hi as [_ Hi].
      apply NoDup_app. repeat split; [done| |done].
      intros x Hx Hx'. apply (Hd x Hx). simpl. by apply list_elem_of_further.
Qed.

Lemma dict_comprehension_filter (cond : string → entry → bool) d :
  wf_dict d →
  dict_comprehension cond d
  = filter (λ kv : string * entry, cond kv.1 kv.2 = true) d.
Proof. intros Hwf. unfold dict_comprehension. by rewrite dict_comprehension_from. Qed.

End dict_facts.

(** ** The monad's primitives *)

Lemma with_drawn_same s : with_drawn (drawn s) s = s.
Proof. by destruct s. Qed.

Lemma bind_Return {A B} (m : M A) (f : A → M B) s a s' :
  m s = (Return a, s') → (m ≫= f) s = f a s'.
Proof. intros Hm. unfold mbind, M_bind. by rewrite Hm. Qed.

Lemma bind_Raise {A B} (m : M A) (f : A → M B) s e s' :
  m s = (Raise e, s') → (m ≫= f) s = (Raise e, s').
Proof. intros Hm. unfold mbind, M_bind. by rewrite Hm. Qed.

(** A draw from a sequence that is not empty returns one of its members and
    consumes one value of entropy. *)
Lemma choice_run {A} (seq : list A) s :
  seq ≠ [] →
  ∃ c, c ∈ seq ∧ choice seq s = (Return c, with_drawn (S (drawn s)) s).
Proof.
  intros Hne. destruct seq as [|a seq]; [done|].
  set (l := a :: seq) in *.
  assert (Hlt : entropy s (drawn s) mod length l < length l).
  { apply Nat.mod_upper_bound. simpl. lia. }
  destruct (lookup_lt_is_Some_2 l _ Hlt) as [c Hc].
  exists c. split; [by eapply list_elem_of_lookup_2|].
  unfold choice. subst l. cbv iota.
  rewrite (bind_Return urandom _ s (entropy s (drawn s))
             (with_drawn (S (drawn s)) s)); [|done].
  by rewrite Hc.
Qed.

(** The filling loop appends [n] draws from [chars]. *)
Lemma fill_run {A} (chars : list A) n acc s :
  chars ≠ [] →
  ∃ rest m,
    length rest = n ∧ Forall (λ c, c ∈ chars) rest ∧
    for_range n (λ password, c ← choice chars; mret (password ++ [c])) acc s
    = (Return (acc ++ rest), with_drawn m s).
Proof.
  intros Hne. revert acc s.
  induction n as [|n IH]; intros acc s.
  - exists [], (drawn s). rewrite app_nil_r, with_drawn_same. by repeat split.
  - destruct (choice_run chars s Hne) as (c & Hin & Hc).
    destruct (IH (acc ++ [c]) (with_drawn (S (drawn s)) s))
      as (rest & m & Hlen & Hall & Hrun).
    exists (c :: rest), m. repeat split.
    + simpl. by rewrite Hlen.
    + by apply Forall_cons.
    + simpl.
      rewrite (bind_Return _ _ s (acc ++ [c]) (with_drawn (S (drawn s)) s)).
      * rewrite Hrun. by rewrite <- app_assoc.
      * by rewrite (bind_Return _ _ _ _ _ Hc).
Qed.

Lemma swap_perm {A} i j (x : list A) : swap i j x ≡ₚ x.
Proof.
  unfold swap. destruct (x !! i) as [xi|] eqn:Hi; [|done].
  destruct (x !! j) as [xj|] eqn:Hj; [|done].
  by apply Permutation_insert_swap.
Qed.

(** The shuffle rearranges its argument and loses or adds nothing. *)
Lemma shuffle_from_run {A} i (x : list A) s :
  ∃ x' m, x' ≡ₚ x ∧ shuffle_from i x s = (Return x', with_drawn m s).
Proof.
  revert x s. induction i as [|i IH]; intros x s.
  - exists x, (drawn s). by rewrite with_drawn_same.
  - destruct (IH (swap (S i) (entropy s (drawn s) mod S (S i)) x)
                 (with_drawn (S (drawn s)) s)) as (x' & m & Hp & Hrun).
    exists x', m. split.
    + by rewrite Hp, swap_perm.
    + simpl.
      by rewrite (bind_Return urandom _ s (entropy s (drawn s))
                    (with_drawn (S (drawn s)) s)).
Qed.

Lemma shuffle_run {A} (x : list A) s :
  ∃ x' m, x' ≡ₚ x ∧ shuffle x s = (Return x', with_drawn m s).
Proof. apply shuffle_from_run. Qed.

Lemma all_chars (P : ascii → bool) (s : string) :
  forallb P (chars_of s) = true → ∀ c, c ∈ chars_of s → P c = true.
Proof.
  intros Hall c Hc. rewrite forallb_forall in Hall.
  apply Hall. by apply list_elem_of_In.
Qed.

Lemma lowercase_is_lower c : c ∈ chars_of ascii_lowercase → is_lower c = true.
Proof. by apply all_chars. Qed.
Lemma uppercase_is_upper c : c ∈ chars_of ascii_uppercase → is_upper c = true.
Proof. by apply all_chars. Qed.
Lemma digits_is_digit c : c ∈ chars_of digits → is_digit c = true.
Proof. by apply all_chars. Qed.
Lemma punctuation_is_symbol c : c ∈ chars_of punctuation → is_symbol c = true.
Proof. by apply all_chars. Qed.

(** The classes do not overlap. *)
Lemma classes_disjoint c :
  (is_digit c = true → is_letter c = false ∧ is_symbol c = false) ∧
  (is_symbol c = true → is_letter c = false ∧ is_digit c = false).
Proof.
  unfold is_letter, is_lower, is_upper, is_digit, is_symbol.
  generalize (nat_of_ascii c). intros n.
  rewrite !andb_true_iff, !orb_false_iff, !orb_true_iff, !andb_true_iff,
          !andb_false_iff, !Nat.leb_le, !Nat.leb_gt.
  lia.
Qed.

Lemma returns_ret {A} (a : A) s (Q : A → State → Prop) :
  Q a s → returns (mret a) s Q.
Proof. intros HQ. by exists a, s. Qed.

Lemma returns_bind {A B} (m : M A) (f : A → M B) s (Q : B → State → Prop) :
  returns m s (λ a s', returns (f a) s' Q) → returns (m ≫= f) s Q.
Proof.
  intros (a & s' & Hm & b & s'' & Hf & HQ).
  exists b, s''. split; [|done]. by rewrite (bind_Return _ _ _ _ _ Hm).
Qed.

Lemma returns_choice {A} (seq : list A) s (Q : A → State → Prop) :
  seq ≠ [] →
  (∀ c, c ∈ seq → Q c (with_drawn (S (drawn s)) s)) →
  returns (choice seq) s Q.
Proof.
  intros Hne HQ. destruct (choice_run seq s Hne) as (c & Hin & Hc).
  exists c, (with_drawn (S (drawn s)) s). auto.
Qed.

Lemma returns_fill {A} (chars : list A) n acc s (Q : list A → State → Prop) :
  chars ≠ [] →
  (∀ rest m, length rest = n → Forall (λ c, c ∈ chars) rest →
             Q (acc ++ rest) (with_drawn m s)) →
  returns (for_range n (λ password, c ← choice chars; mret (password ++ [c]))
             acc) s Q.
Proof.
  intros Hne HQ.
  destruct (fill_run chars n acc s Hne) as (rest & m & Hlen & Hall & Hrun).
  exists (acc ++ rest), (with_drawn m s). auto.
Qed.

Lemma returns_shuffle {A} (x : list A) s (Q : list A → State → Prop) :
  (∀ x' m, x' ≡ₚ x → Q x' (with_drawn m s)) → returns (shuffle x) s Q.
Proof.
  intros HQ. destruct (shuffle_run x s) as (x' & m & Hp & Hrun).
  exists x', (with_drawn m s). auto.
Qed.

(** ** The generator *)

(** The alphabet [chars] that [generate_password] fills from holds only
    characters of the requested classes. *)
Lemma alphabet_allowed (use_symbols use_numbers : bool) c :
  c ∈ chars_of
        (let chars := ascii_letters in
         let chars := if use_numbers then chars +:+ digits else chars in
         if use_symbols then chars +:+ punctuation else chars) →
  allowed use_symbols use_numbers c = true.
Proof.
  destruct use_symbols, use_numbers; by apply all_chars.
Qed.

(** What every run of [generate_password] looks like: one draw per requested
    class, then the filling draws, then a rearrangement; only entropy is
    consumed. *)
Lemma generate_password_run (length : Z) (use_symbols use_numbers : bool) s :
  returns (generate_password length use_symbols use_numbers) s
    (λ out s', ∃ d p lo up rest pw m,
       out = String.string_of_list_ascii pw ∧ s' = with_drawn m s ∧
       pw ≡ₚ (if use_numbers then [d] else []) ++
             (if use_symbols then [p] else []) ++ [lo; up] ++ rest ∧
       is_digit d = true ∧ is_symbol p = true ∧
       is_lower lo = true ∧ is_upper up = true ∧
       List.length rest
         = Z.to_nat (length - mandatory_count use_symbols use_numbers) ∧
       Forall (λ c, allowed use_symbols use_numbers c = true) rest).
Proof.
  unfold generate_password.
  set (chars := if use_symbols then _ else _).
  assert (Hchars : ∀ c, c ∈ chars_of chars →
                        allowed use_symbols use_numbers c = true)
    by apply alphabet_allowed.
  assert (Hne : chars_of chars ≠ []) by (subst chars; by destruct use_symbols, use_numbers).
  clearbody chars.
  assert (Hfin : ∀ (d p : ascii) (acc : list ascii) s0,
    acc = (if use_numbers then [d] else []) ++ (if use_symbols then [p] else []) →
    is_digit d = true → is_symbol p = true →
    returns
      (c ← choice (String.list_ascii_of_string ascii_lowercase);
       let password := acc ++ [c] in
       c0 ← choice (String.list_ascii_of_string ascii_uppercase);
       let password0 := password ++ [c0] in
       password1 ← for_range
                     (Z.to_nat (length - Z.of_nat (List.length password0)))
                     (λ password1, c1 ← choice (String.list_ascii_of_string chars);
                                   mret (password1 ++ [c1]))
                     password0;
       password2 ← shuffle password1;
       mret (String.string_of_list_ascii password2))
      (with_drawn s0 s)
      (λ out s', ∃ d p lo up rest pw m,
         out = String.string_of_list_ascii pw ∧ s' = with_drawn m s ∧
         pw ≡ₚ (if use_numbers then [d] else []) ++
               (if use_symbols then [p] else []) ++ [lo; up] ++ rest ∧
         is_digit d = true ∧ is_symbol p = true ∧
         is_lower lo = true ∧ is_upper up = true ∧
         List.length rest
           = Z.to_nat (length - mandatory_count use_symbols use_numbers) ∧
         Forall (λ c, allowed use_symbols use_numbers c = true) rest)).
  { intros d p acc s0 Hacc Hd Hp.
    apply returns_bind, returns_choice; [done|]. intros lo Hlo.
    apply returns_bind, returns_choice; [done|]. intros up Hup.
    apply returns_bind, returns_fill; [done|]. intros rest m Hlen Hall.
    apply returns_bind, returns_shuffle. intros pw m' Hperm.
    apply returns_ret.
    exists d, p, lo, up, rest, pw, m'. repeat split; try done.
    - rewrite Hperm, Hacc. by rewrite <- !app_assoc.
    - by apply lowercase_is_lower.
    - by apply uppercase_is_upper.
    - rewrite Hlen. f_equal. rewrite !length_app, Hacc.
      unfold mandatory_count. destruct use_numbers, use_symbols; simpl; lia.
    - eapply Forall_impl; [exact Hall|]. apply Hchars. }
  rewrite <- (with_drawn_same s).
  destruct use_numbers, use_symbols.
  - apply returns_bind, returns_bind, returns_choice; [done|]. intros d Hd.
    apply returns_ret.
    apply returns_bind, returns_bind, returns_choice; [done|]. intros p Hp.
    apply returns_ret.
    apply (Hfin d p); [done | by apply digits_is_digit
                      | by apply punctuation_is_symbol].
  - apply returns_bind, returns_bind, returns_choice; [done|]. intros d Hd.
    apply returns_ret. apply returns_bind, returns_ret.
    apply (Hfin d "!"%char); [done | by apply digits_is_digit | done].
  - apply returns_bind, returns_ret.
    apply returns_bind, returns_bind, returns_choice; [done|]. intros p Hp.
    apply returns_ret.
    apply (Hfin "0"%char p); [done | done | by apply punctuation_is_symbol].
  - apply returns_bind, returns_ret. apply returns_bind, returns_ret.
    apply (Hfin "0"%char "!"%char); done.
Qed.

Lemma chars_of_join (pw : list ascii) :
  chars_of (String.string_of_list_ascii pw) = pw.
Proof. apply String.list_ascii_of_string_of_list_ascii. Qed.

Lemma length_join (pw : list ascii) :
  String.length (String.string_of_list_ascii pw) = length pw.
Proof. induction pw as [|c pw IH]; simpl; [done | by rewrite IH]. Qed.

(** The mandatory characters are still there after the shuffle. *)
Lemma mandatory_present (use_symbols use_numbers : bool)
    (d p lo up : ascii) (rest pw : list ascii) :
  pw ≡ₚ (if use_numbers then [d] else []) ++
        (if use_symbols then [p] else []) ++ [lo; up] ++ rest →
  lo ∈ pw ∧ up ∈ pw ∧ (use_numbers = true → d ∈ pw) ∧
  (use_symbols = true → p ∈ pw).
Proof.
  intros Hp. repeat split; [| |intros ->|intros ->]; rewrite Hp;
    rewrite !elem_of_app, ?elem_of_cons; simpl; auto 6.
Qed.

(** C6. For every length that is at least the number of requested classes
    and every entropy source, [generate_password] returns a string of
    exactly [length] characters that holds a lowercase letter, an uppercase
    letter, a digit when [use_numbers] and a symbol when [use_symbols]. *)
Theorem generate_password_composition
    (length : Z) (use_symbols use_numbers : bool) (s : State) :
  (mandatory_count use_symbols use_numbers ≤ length)%Z →
  ∃ out s',
    generate_password length use_symbols use_numbers s = (Return out, s') ∧
    Z.of_nat (String.length out) = length ∧
    (∃ c, c ∈ chars_of out ∧ is_lower c = true) ∧
    (∃ c, c ∈ chars_of out ∧ is_upper c = true) ∧
    (use_numbers = true → ∃ c, c ∈ chars_of out ∧ is_digit c = true) ∧
    (use_symbols = true → ∃ c, c ∈ chars_of out ∧ is_symbol c = true).
Proof.
  intros Hlen.
  destruct (generate_password_run length use_symbols use_numbers s)
    as (out & s' & Hrun & d & p & lo & up & rest & pw & m & -> & _ & Hperm
        & Hd & Hp & Hlo & Hup & Hrest & _).
  exists (String.string_of_list_ascii pw), s'. split; [done|].
  rewrite length_join, chars_of_join.
  destruct (mandatory_present _ _ _ _ _ _ _ _ Hperm) as (Ilo & Iup & Id & Ip).
  repeat split; eauto.
  rewrite Hperm, !length_app, Hrest. unfold mandatory_count in *.
  destruct use_numbers, use_symbols; simpl; lia.
Qed.

Lemma generate_password_composition_witness :
  ∃ out s',
    generate_password 12 true true Demo.first_run = (Return out, s') ∧
    Z.of_nat (String.length out) = 12%Z ∧
    (∃ c, c ∈ chars_of out ∧ is_lower c = true) ∧
    (∃ c, c ∈ chars_of out ∧ is_upper c = true) ∧
    (true = true → ∃ c, c ∈ chars_of out ∧ is_digit c = true) ∧
    (true = true → ∃ c, c ∈ chars_of out ∧ is_symbol c = true).
Proof.
  apply (generate_password_composition 12 true true Demo.first_run).
  unfold mandatory_count. lia.
Defined.

(** C7, as the code has it. [generate_password] never checks [length]: for
    every length below the number of requested classes (zero and negative
    ones too) the filling loop does not run, and the call returns a string of
    exactly one character per requested class. *)
Theorem generate_password_short_length
    (length : Z) (use_symbols use_numbers : bool) (s : State) :
  (length < mandatory_count use_symbols use_numbers)%Z →
  ∃ out s',
    generate_password length use_symbols use_numbers s = (Return out, s') ∧
    Z.of_nat (String.length out) = mandatory_count use_symbols use_numbers ∧
    (∃ c, c ∈ chars_of out ∧ is_lower c = true) ∧
    (∃ c, c ∈ chars_of out ∧ is_upper c = true) ∧
    (use_numbers = true → ∃ c, c ∈ chars_of out ∧ is_digit c = true) ∧
    (use_symbols = true → ∃ c, c ∈ chars_of out ∧ is_symbol c = true).
Proof.
  intros Hlen.
  destruct (generate_password_run length use_symbols use_numbers s)
    as (out & s' & Hrun & d & p & lo & up & rest & pw & m & -> & _ & Hperm
        & Hd & Hp & Hlo & Hup & Hrest & _).
  exists (String.string_of_list_ascii pw), s'. split; [done|].
  rewrite length_join, chars_of_join.
  destruct (mandatory_present _ _ _ _ _ _ _ _ Hperm) as (Ilo & Iup & Id & Ip).
  repeat split; eauto.
  rewrite Hperm, !length_app, Hrest. unfold mandatory_count in *.
  destruct use_numbers, use_symbols; simpl; lia.
Qed.

Lemma generate_password_short_length_witness :
  ∃ out s',
    generate_password 3 true true Demo.first_run = (Return out, s') ∧
    Z.of_nat (String.length out) = mandatory_count true true ∧
    (∃ c, c ∈ chars_of out ∧ is_lower c = true) ∧
    (∃ c, c ∈ chars_of out ∧ is_upper c = true) ∧
    (true = true → ∃ c, c ∈ chars_of out ∧ is_digit c = true) ∧
    (true = true → ∃ c, c ∈ chars_of out ∧ is_symbol c = true).
Proof.
  apply (generate_password_short_length 3 true true Demo.first_run).
  unfold mandatory_count. lia.
Defined.

(** C7 as the specification words it fails: asked for 3 characters with
    digits and symbols, [generate_password] raises nothing and returns a
    string of 4 characters. *)
Lemma generate_password_3_returns :
  (generate_password 3 true true Demo.first_run).1 = Return "3+rY".
Proof. vm_compute. reflexivity. Qed.

(** C10. Every character of a generated password is a letter, or a digit
    with [use_numbers] set, or a symbol with [use_symbols] set; a class that
    was not asked for does not occur. *)
Theorem generate_password_alphabet
    (length : Z) (use_symbols use_numbers : bool) (s : State) :
  ∃ out s',
    generate_password length use_symbols use_numbers s = (Return out, s') ∧
    ∀ c, c ∈ chars_of out →
      (is_letter c = true ∨ (use_numbers = true ∧ is_digit c = true)
       ∨ (use_symbols = true ∧ is_symbol c = true)) ∧
      (use_numbers = false → is_digit c = false) ∧
      (use_symbols = false → is_symbol c = false).
Proof.
  destruct (generate_password_run length use_symbols use_numbers s)
    as (out & s' & Hrun & d & p & lo & up & rest & pw & m & -> & _ & Hperm
        & Hd & Hp & Hlo & Hup & Hrest & Hall).
  exists (String.string_of_list_ascii pw), s'. split; [done|].
  rewrite chars_of_join. intros c Hc.
  assert (Hallowed : allowed use_symbols use_numbers c = true).
  { rewrite Hperm in Hc. rewrite Forall_forall in Hall.
    rewrite !elem_of_app in Hc. destruct Hc as [Hc|[Hc|[Hc|Hc]]].
    - destruct use_numbers; [|by apply elem_of_nil in Hc].
      apply list_elem_of_singleton in Hc as ->.
      unfold allowed. rewrite Hd. simpl. by rewrite orb_true_r.
    - destruct use_symbols; [|by apply elem_of_nil in Hc].
      apply list_elem_of_singleton in Hc as ->.
      unfold allowed. rewrite Hp. simpl. by rewrite orb_true_r.
    - unfold allowed, is_letter.
      apply elem_of_cons in Hc as [->|Hc]; [by rewrite Hlo|].
      apply list_elem_of_singleton in Hc as ->.
      rewrite Hup. by rewrite orb_true_r.
    - by apply Hall. }
  unfold allowed in Hallowed.
  destruct (classes_disjoint c) as [Hdig Hsym].
  repeat split.
  - apply orb_true_iff in Hallowed as [Hallowed|Hallowed].
    + apply orb_true_iff in Hallowed as [?|Hallowed]; [by left|].
      apply andb_true_iff in Hallowed. right; left. done.
    + apply andb_true_iff in Hallowed. right; right. done.
  - intros ->. simpl in Hallowed.
    destruct (is_digit c) eqn:Hdc; [|done].
    destruct (Hdig eq_refl) as [Hl Hs]. rewrite Hl, Hs in Hallowed.
    by rewrite andb_false_r in Hallowed.
  - intros ->. simpl in Hallowed.
    destruct (is_symbol c) eqn:Hsc; [|done].
    destruct (Hsym eq_refl) as [Hl Hdg]. rewrite Hl, Hdg in Hallowed.
    by rewrite andb_false_r in Hallowed.
Qed.

(** ** Saving and loading *)

Section persistence.
Context `{L : PyLib}.

(** [_save_passwords] case by case: it never raises; what it does depends
    on whether the cipher is there and on the fate of the write. *)
Lemma save_run s :
  _save_passwords s =
  (Return (),
   match cipher s with
   | None => with_stdout (stdout s ++ [save_error AttributeError]) s
   | Some k =>
       let s1 := with_drawn (S (drawn s)) s in
       match disk s with
       | [] => with_data_file (Some (token s k)) s1
       | WriteOk :: later =>
           with_disk later (with_data_file (Some (token s k)) s1)
       | OpenFails :: later =>
           with_stdout (stdout s ++ [save_error OSError]) (with_disk later s1)
       | WriteFails kept :: later =>
           with_stdout (stdout s ++ [save_error OSError])
             (with_disk later
                (with_data_file (Some (take kept (token s k))) s1))
       end
   end).
Proof.
  destruct s as [ky [k|] pw kf df mf ti so en dr [|[| |kept] later]];
    reflexivity.
Qed.

Lemma save_returns s : _save_passwords s = (Return (), after_save s).
Proof. unfold after_save. by rewrite save_run. Qed.

(** Saving touches the data file, the output, the entropy counter and the
    disk schedule, and nothing else. *)
Lemma after_save_frame s :
  key (after_save s) = key s ∧ cipher (after_save s) = cipher s ∧
  passwords (after_save s) = passwords s ∧
  key_file (after_save s) = key_file s ∧
  master_hash_file (after_save s) = master_hash_file s ∧
  tty_in (after_save s) = tty_in s ∧ entropy (after_save s) = entropy s.
Proof.
  unfold after_save. rewrite save_run.
  destruct s as [ky [k|] pw kf df mf ti so en dr [|[| |kept] later]];
    by repeat split.
Qed.

Lemma after_save_passwords s : passwords (after_save s) = passwords s.
Proof. apply after_save_frame. Qed.

Lemma after_save_ok s k :
  cipher s = Some k → write_succeeds s →
  data_file (after_save s) = Some (token s k) ∧
  stdout (after_save s) = stdout s.
Proof.
  unfold after_save, write_succeeds. rewrite save_run.
  destruct s as [ky c pw kf df mf ti so en dr [|[| |kept] later]];
    simpl; intros -> Hw; done.
Qed.

Lemma after_save_failed s k :
  cipher s = Some k → write_fails s →
  stdout (after_save s) = stdout s ++ [save_error OSError] ∧
  (∀ later, disk s = OpenFails :: later →
            data_file (after_save s) = data_file s).
Proof.
  unfold after_save, write_fails. rewrite save_run.
  destruct s as [ky c pw kf df mf ti so en dr [|[| |kept] later]];
    simpl; intros -> Hw; done.
Qed.

(** [_load_passwords], branch by branch. *)
Lemma load_absent s : data_file s = None → _load_passwords s = (Return [], s).
Proof.
  intros Hd. unfold _load_passwords.
  rewrite (bind_Return get_state _ s s s); [|done]. by rewrite Hd.
Qed.

Lemma load_ok s c k p text d :
  data_file s = Some c → cipher s = Some k →
  Fernet_decrypt k c = Some p → bytes_decode p = Some text →
  json_loads text = Some d →
  _load_passwords s = (Return d, s).
Proof.
  intros Hd Hc Hp Ht Hj. unfold _load_passwords.
  rewrite (bind_Return get_state _ s s s); [|done].
  rewrite Hd. unfold try_except. by rewrite Hc, Hp, Ht, Hj.
Qed.

Lemma load_no_cipher s c :
  data_file s = Some c → cipher s = None →
  _load_passwords s
  = (Return [], with_stdout (stdout s ++ [load_error AttributeError]) s).
Proof.
  intros Hd Hc. unfold _load_passwords.
  rewrite (bind_Return get_state _ s s s); [|done].
  rewrite Hd. unfold try_except. by rewrite Hc.
Qed.

Lemma load_undecryptable s c k :
  data_file s = Some c → cipher s = Some k → Fernet_decrypt k c = None →
  _load_passwords s
  = (Return [], with_stdout (stdout s ++ [load_error InvalidToken]) s).
Proof.
  intros Hd Hc Hp. unfold _load_passwords.
  rewrite (bind_Return get_state _ s s s); [|done].
  rewrite Hd. unfold try_except. by rewrite Hc, Hp.
Qed.

Lemma load_undecodable s c k p :
  data_file s = Some c → cipher s = Some k →
  Fernet_decrypt k c = Some p → bytes_decode p = None →
  _load_passwords s
  = (Return [], with_stdout (stdout s ++ [load_error UnicodeDecodeError]) s).
Proof.
  intros Hd Hc Hp Ht. unfold _load_passwords.
  rewrite (bind_Return get_state _ s s s); [|done].
  rewrite Hd. unfold try_except. by rewrite Hc, Hp, Ht.
Qed.

Lemma load_unparsable s c k p text :
  data_file s = Some c → cipher s = Some k →
  Fernet_decrypt k c = Some p → bytes_decode p = Some text →
  json_loads text = None →
  _load_passwords s
  = (Return [], with_stdout (stdout s ++ [load_error JSONDecodeError]) s).
Proof.
  intros Hd Hc Hp Ht Hj. unfold _load_passwords.
  rewrite (bind_Return get_state _ s s s); [|done].
  rewrite Hd. unfold try_except. by rewrite Hc, Hp, Ht, Hj.
Qed.

(** C1. The mapping [_save_passwords] serialises, encrypts and writes is
    the mapping [_load_passwords] reads back from the file, decrypts and
    parses. After a save whose write goes through, a load in any state that
    has the file the save left and a cipher of the same key returns the
    saved mapping, whatever mapping that state holds in memory (a later
    process holds the empty one), and leaves the state as it is, printing
    nothing. That [Fernet] decrypts under a valid key what it encrypted is
    the law of the library, a hypothesis here, as are the laws of the codec
    and of [json]. *)
Theorem save_then_load_round_trip (s : State) (k : bytes) :
  decrypt_encrypt_law → decode_encode_law → loads_dumps_law →
  cipher s = Some k → Fernet_key_ok k = true →
  wf_dict (passwords s) → write_succeeds s →
  ∃ s1,
    _save_passwords s = (Return (), s1) ∧
    data_file s1
    = Some (Fernet_encrypt k (entropy s (drawn s))
              (str_encode (json_dumps (passwords s)))) ∧
    ∀ s2, data_file s2 = data_file s1 → cipher s2 = Some k →
          _load_passwords s2 = (Return (passwords s), s2).
Proof.
  intros Hfernet Hutf Hjson Hc Hk Hwf Hw.
  exists (after_save s).
  destruct (after_save_ok s k Hc Hw) as [Hfile _].
  split; [apply save_returns|].
  split; [exact Hfile|].
  intros s2 Hd2 Hc2. eapply load_ok.
  - by rewrite Hd2.
  - exact Hc2.
  - by apply Hfernet.
  - apply Hutf.
  - by apply Hjson.
Qed.

(** C2, as the code has it. When the vault file exists and cannot be
    decrypted, or its plain text cannot be decoded or parsed, the [except]
    block of [_load_passwords] prints the error and returns the empty
    mapping; no exception reaches the caller. *)
Theorem load_failure_returns_empty (s : State) (c k : bytes) :
  data_file s = Some c → cipher s = Some k →
  (Fernet_decrypt k c = None →
   _load_passwords s
   = (Return [], with_stdout (stdout s ++ [load_error InvalidToken]) s)) ∧
  (∀ p, Fernet_decrypt k c = Some p → bytes_decode p = None →
   _load_passwords s
   = (Return [],
      with_stdout (stdout s ++ [load_error UnicodeDecodeError]) s)) ∧
  (∀ p text, Fernet_decrypt k c = Some p → bytes_decode p = Some text →
   json_loads text = None →
   _load_passwords s
   = (Return [], with_stdout (stdout s ++ [load_error JSONDecodeError]) s)).
Proof.
  intros Hd Hc. repeat split.
  - by apply load_undecryptable.
  - intros p. by apply load_undecodable.
  - intros p text. by apply load_unparsable.
Qed.

End persistence.

(** ** The small library keeps the laws *)

Section toy_laws.
#[local] Existing Instance Toy.lib.

Lemma toy_strip k rest : Toy.strip k (k ++ rest) = Some rest.
Proof.
  induction k as [|x k IH]; simpl; [by destruct rest|].
  by rewrite decide_True.
Qed.

Lemma toy_decrypt_encrypt : decrypt_encrypt_law.
Proof.
  intros k iv p _. simpl. unfold Toy.decrypt, Toy.encrypt.
  by rewrite toy_strip.
Qed.

Lemma toy_decode_encode : decode_encode_law.
Proof.
  intros s. simpl. unfold Toy.decode, Toy.encode.
  by rewrite String.string_of_list_byte_of_string.
Qed.

Lemma toy_generate_key : generate_key_law.
Proof. intros r. reflexivity. Qed.

Lemma toy_lower_empty : lower_empty_law.
Proof. reflexivity. Qed.

Lemma toy_count_ones n rest :
  Toy.count_ones (Toy.ones n (String "0" rest)) = Some (n, rest).
Proof. induction n as [|n IH]; simpl; [done | by rewrite IH]. Qed.

Lemma toy_split_at s rest :
  Toy.split_at (String.length s) (s +:+ rest) = Some (s, rest).
Proof. induction s as [|c s IH]; simpl; [done | by rewrite IH]. Qed.

Lemma toy_get_put s rest : Toy.get_str (Toy.put_str s rest) = Some (s, rest).
Proof.
  unfold Toy.get_str, Toy.put_str. rewrite toy_count_ones. apply toy_split_at.
Qed.

Lemma toy_put_nonempty s rest : ∃ c t, Toy.put_str s rest = String c t.
Proof. unfold Toy.put_str. destruct s; simpl; eauto. Qed.

Lemma toy_loads_fuel d fuel :
  length d ≤ fuel → Toy.loads_fuel fuel (Toy.dumps d) = Some d.
Proof.
  revert fuel. induction d as [|[k e] d IH]; intros fuel Hf; simpl.
  - by destruct fuel.
  - destruct fuel as [|fuel]; [simpl in Hf; lia|].
    destruct (toy_put_nonempty k
                (Toy.put_str (Entry.service e) (Toy.put_str (Entry.username e)
                   (Toy.put_str (Entry.password e) (Toy.dumps d)))))
      as (c & t & Heq).
    rewrite Heq. simpl. rewrite <- Heq. rewrite !toy_get_put. simpl.
    rewrite !toy_get_put. simpl. rewrite !toy_get_put. simpl.
    rewrite !toy_get_put. simpl.
    rewrite IH; [|simpl in Hf; lia]. simpl. by destruct e.
Qed.

Lemma toy_length_ones n rest :
  String.length (Toy.ones n rest) = n + String.length rest.
Proof. induction n as [|n IH]; simpl; [done | by rewrite IH]. Qed.

Lemma toy_length_append (a b : string) :
  String.length (a +:+ b) = String.length a + String.length b.
Proof. induction a as [|c a IH]; simpl; [done | by rewrite IH]. Qed.

Lemma toy_length_put s rest :
  String.length rest < String.length (Toy.put_str s rest).
Proof.
  unfold Toy.put_str. rewrite toy_length_ones. simpl.
  rewrite toy_length_append. lia.
Qed.

Lemma toy_length_dumps d : length d ≤ String.length (Toy.dumps d).
Proof.
  induction d as [|[k e] d IH]; simpl; [done|].
  pose proof (toy_length_put (Entry.password e) (Toy.dumps d)).
  pose proof (toy_length_put (Entry.username e)
                (Toy.put_str (Entry.password e) (Toy.dumps d))).
  pose proof (toy_length_put (Entry.service e)
                (Toy.put_str (Entry.username e)
                   (Toy.put_str (Entry.password e) (Toy.dumps d)))).
  pose proof (toy_length_put k
                (Toy.put_str (Entry.service e) (Toy.put_str (Entry.username e)
                   (Toy.put_str (Entry.password e) (Toy.dumps d))))).
  lia.
Qed.

Lemma toy_loads_dumps : loads_dumps_law.
Proof.
  intros d _. simpl. unfold Toy.loads.
  apply toy_loads_fuel, toy_length_dumps.
Qed.

(** The five laws can be met together. *)
Lemma toy_lawful :
  lower_empty_law ∧ decode_encode_law ∧ generate_key_law ∧
  decrypt_encrypt_law ∧ loads_dumps_law.
Proof.
  split; [exact toy_lower_empty|]. split; [exact toy_decode_encode|].
  split; [exact toy_generate_key|]. split; [exact toy_decrypt_encrypt|].
  exact toy_loads_dumps.
Qed.

End toy_laws.

(** ** The operations on the vault, run *)

Section operations.
Context `{L : PyLib}.

Lemma noise_none s : with_stdout (stdout s ++ []) (with_drawn (drawn s) s) = s.
Proof. destruct s. simpl. by rewrite app_nil_r. Qed.

(** The password an operation ends up storing: the one given or, for
    [None], a generated one, announced on the terminal. Apart from that line
    and the entropy consumed the state is as before. *)
Lemma chosen_password (password : option string) s :
  ∃ pw m pre,
    (∀ p, password = Some p → pw = p) ∧
    match password with
    | None =>
        password ← generate_password 16 true true;
        print (nl +:+ "🔑 Generated password: " +:+ password);;
        mret password
    | Some password => mret password
    end s
    = (Return pw, with_stdout (stdout s ++ pre) (with_drawn m s)).
Proof.
  destruct password as [p|].
  - exists p, (drawn s), []. split; [by intros ? [= ->]|].
    by rewrite noise_none.
  - destruct (generate_password_run 16 true true s)
      as (out & s' & Hrun & _ & _ & _ & _ & _ & _ & m & _ & -> & _).
    exists out, m, [nl +:+ "🔑 Generated password: " +:+ out].
    split; [done|].
    by rewrite (bind_Return _ _ _ _ _ Hrun).
Qed.

Lemma add_password_run service username password s :
  ∃ pw m pre,
    (∀ p, password = Some p → pw = p) ∧
    let s1 := with_passwords
                (dict_set (str_lower service)
                          (Entry.mk service username pw) (passwords s))
                (with_stdout (stdout s ++ pre) (with_drawn m s)) in
    add_password service username password s
    = (Return (),
       with_stdout
         (stdout (after_save s1) ++ ["✓ Password saved for " +:+ service])
         (after_save s1)).
Proof.
  destruct (chosen_password password s) as (pw & m & pre & Hpw & Hrun).
  exists pw, m, pre. split; [done|]. intros s1.
  unfold add_password. rewrite (bind_Return _ _ _ _ _ Hrun).
  unfold mbind, M_bind, modify, print. fold s1.
  by rewrite save_returns.
Qed.

Lemma delete_password_found service e s :
  dict_get (str_lower service) (passwords s) = Some e →
  let s1 := with_passwords (dict_del (str_lower service) (passwords s)) s in
  delete_password service s
  = (Return (),
     with_stdout
       (stdout (after_save s1)
        ++ ["✓ Password deleted for " +:+ Entry.service e])
       (after_save s1)).
Proof.
  intros Hg s1. unfold delete_password.
  rewrite (bind_Return get_state _ s s s); [|done].
  unfold dict_contains. rewrite Hg.
  unfold mbind, M_bind, modify, print. fold s1.
  by rewrite save_returns.
Qed.

Lemma delete_password_missing service s :
  dict_get (str_lower service) (passwords s) = None →
  delete_password service s
  = (Return (),
     with_stdout (stdout s ++ ["❌ No password found for " +:+ service]) s).
Proof.
  intros Hg. unfold delete_password.
  rewrite (bind_Return get_state _ s s s); [|done].
  unfold dict_contains. by rewrite Hg.
Qed.

Lemma update_password_found service new_password e s :
  dict_get (str_lower service) (passwords s) = Some e →
  ∃ pw m pre,
    (∀ p, new_password = Some p → pw = p) ∧
    let s1 := with_passwords
                (dict_set (str_lower service) (set_password pw e)
                          (passwords s))
                (with_stdout (stdout s ++ pre) (with_drawn m s)) in
    update_password service new_password s
    = (Return (),
       with_stdout
         (stdout (after_save s1)
          ++ ["✓ Password updated for " +:+ Entry.service e])
         (after_save s1)).
Proof.
  intros Hg.
  destruct (chosen_password new_password s) as (pw & m & pre & Hpw & Hrun).
  exists pw, m, pre. split; [done|]. intros s1.
  unfold update_password.
  rewrite (bind_Return get_state _ s s s); [|done].
  unfold dict_contains. rewrite Hg.
  change (negb true) with false. cbv iota.
  rewrite (bind_Return _ _ _ _ _ Hrun).
  set (s0 := with_stdout (stdout s ++ pre) (with_drawn m s)).
  rewrite (bind_Return get_state _ s0 s0 s0); [|done].
  change (passwords s0) with (passwords s). rewrite Hg.
  unfold mbind at 1. unfold M_bind, modify. fold s1.
  rewrite (bind_Return _ _ _ _ _ (save_returns s1)).
  rewrite (bind_Return get_state _ _ (after_save s1) (after_save s1)); [|done].
  rewrite after_save_passwords. change (passwords s1) with
    (dict_set (str_lower service) (set_password pw e) (passwords s)).
  by rewrite dict_get_set.
Qed.

Lemma update_password_missing service new_password s :
  dict_get (str_lower service) (passwords s) = None →
  update_password service new_password s
  = (Return (),
     with_stdout (stdout s ++ ["❌ Service " +:+ service +:+ " not found"]) s).
Proof.
  intros Hg. unfold update_password.
  rewrite (bind_Return get_state _ s s s); [|done].
  unfold dict_contains. by rewrite Hg.
Qed.

Lemma get_password_run service s :
  get_password service s
  = (Return (dict_get (str_lower service) (passwords s)), s).
Proof.
  unfold get_password.
  rewrite (bind_Return get_state _ s s s); [|done].
  unfold dict_contains.
  by destruct (dict_get (str_lower service) (passwords s)).
Qed.

Lemma for_each_print {A} (f : A → string) (xs : list A) s :
  for_each xs (λ x, print (f x)) s
  = (Return (), with_stdout (stdout s ++ map f xs) s).
Proof.
  revert s. induction xs as [|x xs IH]; intros s; simpl.
  - destruct s. unfold mret, M_ret. simpl. by rewrite app_nil_r.
  - unfold mbind, M_bind, print, modify. rewrite IH. simpl.
    by rewrite <- app_assoc.
Qed.

Lemma search_run query s :
  ∃ out,
    search query s
    = (Return (dict_comprehension (search_cond (str_lower query)) (passwords s)),
       with_stdout (stdout s ++ out) s).
Proof.
  unfold search.
  rewrite (bind_Return get_state _ s s s); [|done].
  destruct (dict_comprehension _ _) as [|r results] eqn:Hres.
  - eexists. unfold mbind, M_bind, print, modify. reflexivity.
  - eexists. unfold mbind at 1. unfold M_bind at 1.
    unfold mbind at 1. unfold M_bind at 1. unfold print at 1. unfold modify.
    rewrite for_each_print. simpl. rewrite <- app_assoc. reflexivity.
Qed.

End operations.

(** ** Substrings *)

Lemma append_cons (c : ascii) (a b : string) :
  String c a +:+ b = String c (a +:+ b).
Proof. reflexivity. Qed.

Lemma prefix_starts (q s : string) :
  String.prefix q s = true ↔ ∃ b, s = q +:+ b.
Proof.
  revert q. induction s as [|c s IH]; intros [|a q]; simpl.
  - split; [by exists EmptyString | done].
  - split; [done | by intros [b Hb]].
  - split; [by exists (String c s) | done].
  - destruct (Ascii.ascii_dec a c) as [->|Hne].
    + rewrite IH. split; intros [b Hb]; exists b;
        rewrite append_cons in *; congruence.
    + split; [done | intros [b Hb]; rewrite append_cons in Hb; congruence].
Qed.

(** [str_in] is the substring test. *)
Lemma str_in_occurs (q s : string) : str_in q s = true ↔ occurs_in q s.
Proof.
  unfold occurs_in. induction s as [|c s IH].
  - change (str_in q EmptyString) with (String.prefix q EmptyString || false).
    rewrite orb_false_r, prefix_starts. split.
    + intros [b Hb]. by exists EmptyString, b.
    + intros ([|a0 a] & b & Hb); [by exists b | done].
  - change (str_in q (String c s))
      with (String.prefix q (String c s) || str_in q s).
    rewrite orb_true_iff, prefix_starts, IH. split.
    + intros [[b Hb]|(a & b & Hb)].
      * by exists EmptyString, b.
      * exists (String c a), b. by rewrite append_cons, Hb.
    + intros ([|a0 a] & b & Hb).
      * left. by exists b.
      * right. exists a, b. rewrite append_cons in Hb. congruence.
Qed.

Lemma str_in_empty (s : string) : str_in EmptyString s = true.
Proof. apply str_in_occurs. by exists EmptyString, s. Qed.

(** ** Filtering *)

Lemma filter_none {A} (P : A → Prop) `{∀ x, Decision (P x)} (l : list A) :
  (∀ x, x ∈ l → ¬ P x) → filter P l = [].
Proof.
  induction l as [|x l IH]; intros Hno; [done|].
  rewrite filter_cons, decide_False.
  - apply IH. intros y Hy. apply Hno. by apply list_elem_of_further.
  - apply Hno, list_elem_of_here.
Qed.

Lemma filter_all {A} (P : A → Prop) `{∀ x, Decision (P x)} (l : list A) :
  (∀ x, x ∈ l → P x) → filter P l = l.
Proof.
  induction l as [|x l IH]; intros Hall; [done|].
  rewrite filter_cons, decide_True.
  - f_equal. apply IH. intros y Hy. apply Hall. by apply list_elem_of_further.
  - apply Hall, list_elem_of_here.
Qed.

Lemma filter_agree {A} (P Q : A → Prop)
    `{∀ x, Decision (P x)} `{∀ x, Decision (Q x)} (l : list A) :
  (∀ x, x ∈ l → P x ↔ Q x) → filter P l = filter Q l.
Proof.
  induction l as [|x l IH]; intros Hpq; [done|].
  rewrite !filter_cons.
  assert (Hl : filter P l = filter Q l).
  { apply IH. intros y Hy. apply Hpq. by apply list_elem_of_further. }
  destruct (Hpq x (list_elem_of_here x l)) as [Hpq1 Hpq2].
  destruct (decide (P x)), (decide (Q x)); try tauto; by rewrite Hl.
Qed.

(** ** The claims about the vault *)

Section vault.
Context `{L : PyLib}.

Lemma vault_inv_set service username pw d :
  vault_inv d →
  vault_inv (dict_set (str_lower service) (Entry.mk service username pw) d).
Proof.
  intros [Hwf Hkeys]. split; [by apply wf_dict_set|].
  rewrite Forall_forall in Hkeys. apply Forall_forall. intros [k v] Hin.
  apply dict_set_elem_of in Hin as [[= -> ->]|Hin]; [done | by apply Hkeys].
Qed.

Lemma vault_inv_update k e pw d :
  vault_inv d → dict_get k d = Some e →
  vault_inv (dict_set k (set_password pw e) d).
Proof.
  intros [Hwf Hkeys] Hg. split; [by apply wf_dict_set|].
  rewrite Forall_forall in Hkeys. apply Forall_forall. intros [k' v] Hin.
  apply dict_set_elem_of in Hin as [[= -> ->]|Hin]; [|by apply Hkeys].
  apply dict_get_Some in Hg. apply (Hkeys _ Hg).
Qed.

Lemma vault_inv_del k d : vault_inv d → vault_inv (dict_del k d).
Proof.
  intros [Hwf Hkeys]. split; [by apply wf_dict_del|].
  rewrite Forall_forall in Hkeys. apply Forall_forall. intros [k' v] Hin.
  apply Hkeys. by eapply dict_del_elem_of.
Qed.

(** The empty vault, which [__init__] sets and a first start leaves. *)
Lemma vault_inv_nil : vault_inv [].
Proof. split; [apply wf_dict_nil | apply Forall_nil_2]. Qed.

(** With distinct keys, the records under one key are at most one. *)
Lemma wf_dict_one_per_key (k : string) (d : dict) :
  wf_dict d → length (filter (λ kv : string * entry, kv.1 = k) d) ≤ 1.
Proof.
  unfold wf_dict. induction d as [|[k' v] d IH]; simpl; [lia|].
  rewrite NoDup_cons. intros [Hk' Hnd]. rewrite filter_cons. simpl.
  destruct (decide (k' = k)) as [->|Hne]; [|auto].
  assert (Hnone : filter (λ kv : string * entry, kv.1 = k) d = []).
  { apply filter_none. intros [k0 v0] Hin Heq. simpl in Heq. subst k0.
    apply Hk'. apply list_elem_of_fmap. by exists (k, v0). }
  rewrite Hnone. simpl. lia.
Qed.

(** After an assignment the records under the key are that one record. *)
Lemma dict_set_single (k : string) (v : entry) (d : dict) :
  wf_dict d →
  filter (λ kv : string * entry, kv.1 = k) (dict_set k v d) = [(k, v)].
Proof.
  unfold wf_dict. induction d as [|[k' v'] d IH]; simpl.
  - intros _. rewrite filter_cons. simpl. by rewrite decide_True.
  - rewrite NoDup_cons. intros [Hk' Hnd].
    destruct (decide (k = k')) as [->|Hne].
    + rewrite filter_cons. simpl. rewrite decide_True; [|done]. f_equal.
      apply filter_none. intros [k0 v0] Hin Heq.
      simpl in Heq. subst k0.
      apply Hk'. apply list_elem_of_fmap. by exists (k', v0).
    + rewrite filter_cons. simpl. rewrite decide_False; [auto | congruence].
Qed.

End vault.

Section vault_claims.
Context `{L : PyLib}.

(** C3, as the code has it. When the write of the re-encrypted vault fails,
    the [except] block of [_save_passwords] prints the error and the
    mutating operation goes on: [add_password], [delete_password] and
    [update_password] change [self.passwords], print their success line after
    the error line and return normally. *)
Theorem persist_failure_is_swallowed (s : State) (k : bytes) :
  cipher s = Some k → write_fails s →
  (∀ service username password, ∃ pw pre s',
     add_password service username password s = (Return (), s') ∧
     (∀ p, password = Some p → pw = p) ∧
     passwords s'
     = dict_set (str_lower service) (Entry.mk service username pw)
                (passwords s) ∧
     stdout s'
     = stdout s ++ pre
       ++ [save_error OSError; "✓ Password saved for " +:+ service]) ∧
  (∀ service e,
     dict_get (str_lower service) (passwords s) = Some e →
     ∃ s',
       delete_password service s = (Return (), s') ∧
       passwords s' = dict_del (str_lower service) (passwords s) ∧
       stdout s'
       = stdout s
         ++ [save_error OSError;
             "✓ Password deleted for " +:+ Entry.service e]) ∧
  (∀ service new_password e,
     dict_get (str_lower service) (passwords s) = Some e →
     ∃ pw pre s',
       update_password service new_password s = (Return (), s') ∧
       (∀ p, new_password = Some p → pw = p) ∧
       passwords s'
       = dict_set (str_lower service) (set_password pw e) (passwords s) ∧
       stdout s'
       = stdout s ++ pre
         ++ [save_error OSError;
             "✓ Password updated for " +:+ Entry.service e]).
Proof.
  intros Hc Hw. repeat split.
  - intros service username password.
    destruct (add_password_run service username password s)
      as (pw & m & pre & Hpw & Hrun). simpl in Hrun.
    eexists pw, pre, _. split; [exact Hrun|]. split; [exact Hpw|].
    simpl. rewrite after_save_passwords. split; [done|].
    match goal with |- context [after_save ?x] =>
      destruct (after_save_failed x k Hc Hw) as [-> _] end.
    simpl. by rewrite <- !app_assoc.
  - intros service e Hg.
    rewrite (delete_password_found service e s Hg).
    eexists. split; [reflexivity|]. simpl.
    rewrite after_save_passwords. split; [done|].
    match goal with |- context [after_save ?x] =>
      destruct (after_save_failed x k Hc Hw) as [-> _] end.
    simpl. by rewrite <- !app_assoc.
  - intros service new_password e Hg.
    destruct (update_password_found service new_password e s Hg)
      as (pw & m & pre & Hpw & Hrun). simpl in Hrun.
    eexists pw, pre, _. split; [exact Hrun|]. split; [exact Hpw|].
    simpl. rewrite after_save_passwords. split; [done|].
    match goal with |- context [after_save ?x] =>
      destruct (after_save_failed x k Hc Hw) as [-> _] end.
    simpl. by rewrite <- !app_assoc.
Qed.

(** C5. The vault holds at most one record per lowercased service name;
    [add_password], [delete_password] and [update_password] keep it so, and
    [get_password] and [search] leave the vault alone. Adding under a name
    that differs only in case from the name of a stored record overwrites
    that record: the key then holds exactly the new record, and the vault
    has as many records as before. *)
Theorem one_record_per_service_key (s : State) :
  vault_inv (passwords s) →
  (∀ name,
     length (filter (λ kv : string * entry,
                       str_lower (Entry.service kv.2) = str_lower name)
                    (passwords s)) ≤ 1) ∧
  (∀ service username password,
     vault_inv (passwords (add_password service username password s).2)) ∧
  (∀ service, vault_inv (passwords (delete_password service s).2)) ∧
  (∀ service new_password,
     vault_inv (passwords (update_password service new_password s).2)) ∧
  (∀ service, passwords (get_password service s).2 = passwords s) ∧
  (∀ query, passwords (search query s).2 = passwords s) ∧
  (∀ service username password k old,
     (k, old) ∈ passwords s →
     str_lower (Entry.service old) = str_lower service →
     ∃ pw s',
       add_password service username password s = (Return (), s') ∧
       (∀ p, password = Some p → pw = p) ∧
       filter (λ kv : string * entry, kv.1 = str_lower service) (passwords s')
       = [(str_lower service, Entry.mk service username pw)] ∧
       dict_get (str_lower service) (passwords s')
       = Some (Entry.mk service username pw) ∧
       (∀ k', str_lower service ≠ k' →
              dict_get k' (passwords s') = dict_get k' (passwords s)) ∧
       length (passwords s') = length (passwords s)).
Proof.
  intros Hinv. pose proof Hinv as [Hwf Hkeys].
  rewrite Forall_forall in Hkeys.
  split; [|split; [|split; [|split; [|split; [|split]]]]].
  - intros name.
    rewrite <- (wf_dict_one_per_key (str_lower name) _ Hwf).
    apply Nat.eq_le_incl. f_equal. apply filter_agree.
    intros [k v] Hin. pose proof (Hkeys _ Hin) as Hk. simpl in *.
    by rewrite Hk.
  - intros service username password.
    destruct (add_password_run service username password s)
      as (pw & m & pre & _ & Hrun). simpl in Hrun. rewrite Hrun. simpl.
    rewrite after_save_passwords. simpl. apply vault_inv_set, Hinv.
  - intros service.
    destruct (dict_get (str_lower service) (passwords s)) as [e|] eqn:Hg.
    + rewrite (delete_password_found service e s Hg). simpl.
      rewrite after_save_passwords. simpl. apply vault_inv_del, Hinv.
    + by rewrite (delete_password_missing service s Hg).
  - intros service new_password.
    destruct (dict_get (str_lower service) (passwords s)) as [e|] eqn:Hg.
    + destruct (update_password_found service new_password e s Hg)
        as (pw & m & pre & _ & Hrun). simpl in Hrun. rewrite Hrun. simpl.
      rewrite after_save_passwords. simpl. by apply vault_inv_update.
    + by rewrite (update_password_missing service new_password s Hg).
  - intros service. by rewrite get_password_run.
  - intros query. destruct (search_run query s) as [out Hrun].
    by rewrite Hrun.
  - intros service username password k old Hin Hcase.
    destruct (add_password_run service username password s)
      as (pw & m & pre & Hpw & Hrun). simpl in Hrun.
    eexists pw, _. split; [exact Hrun|]. split; [exact Hpw|].
    simpl. rewrite after_save_passwords. simpl.
    split; [by apply dict_set_single|].
    split; [apply dict_get_set|].
    split; [intros k' Hne; by apply dict_get_set_ne|].
    apply dict_set_length_present.
    apply list_elem_of_fmap. exists (k, old). split; [|done].
    simpl. rewrite <- Hcase. symmetry. apply (Hkeys _ Hin).
Qed.

End vault_claims.

Section lookup_claims.
Context `{L : PyLib}.

(** C8, as the code has it. [delete_password] removes the record under the
    lowercased service name, leaves every other key alone and saves; when the
    write goes through, the file holds the encryption of the new vault.
    Afterwards [get_password] returns [None] for that service, and a second
    [delete_password] changes nothing. For a service that has no record the
    method raises nothing and returns [None] as it does after a removal: it
    prints a line and leaves the whole state, files included, as it was. *)
Theorem delete_password_removes (s : State) (service : string) :
  wf_dict (passwords s) →
  (∀ e, dict_get (str_lower service) (passwords s) = Some e →
     ∃ s',
       delete_password service s = (Return (), s') ∧
       passwords s' = dict_del (str_lower service) (passwords s) ∧
       (∀ k', k' ≠ str_lower service →
              dict_get k' (passwords s') = dict_get k' (passwords s)) ∧
       (∀ k, cipher s = Some k → write_succeeds s →
             data_file s'
             = Some (Fernet_encrypt k (entropy s (drawn s))
                       (str_encode
                          (json_dumps
                             (dict_del (str_lower service) (passwords s)))))) ∧
       get_password service s' = (Return None, s') ∧
       delete_password service s'
       = (Return (),
          with_stdout
            (stdout s' ++ ["❌ No password found for " +:+ service]) s')) ∧
  (dict_get (str_lower service) (passwords s) = None →
     delete_password service s
     = (Return (),
        with_stdout (stdout s ++ ["❌ No password found for " +:+ service]) s)).
Proof.
  intros Hwf. split; [|apply delete_password_missing].
  intros e Hg. rewrite (delete_password_found service e s Hg).
  eexists. split; [reflexivity|].
  assert (Hgone : dict_get (str_lower service)
                    (dict_del (str_lower service) (passwords s)) = None)
    by by apply dict_get_del.
  simpl. rewrite after_save_passwords. simpl.
  split; [done|]. split; [|split; [|split]].
  - intros k' Hne. by apply dict_get_del_ne.
  - intros k Hc Hw.
    match goal with |- context [after_save ?x] =>
      destruct (after_save_ok x k Hc Hw) as [-> _] end.
    done.
  - rewrite get_password_run. simpl. rewrite after_save_passwords. simpl.
    by rewrite Hgone.
  - apply delete_password_missing. simpl. rewrite after_save_passwords.
    exact Hgone.
Qed.

(** C9. [search] returns the records, in the vault's insertion order, whose
    key contains the lowercased query or whose lowercased user name does,
    and no others; the vault itself is not changed. The empty query returns
    every record; a query that occurs in no key and no user name returns
    none. *)
Theorem search_returns_matches (s : State) (query : string) :
  wf_dict (passwords s) →
  ∃ results s',
    search query s = (Return results, s') ∧
    passwords s' = passwords s ∧
    results `sublist_of` passwords s ∧
    (∀ k v, (k, v) ∈ results ↔
            (k, v) ∈ passwords s ∧
            (occurs_in (str_lower query) k ∨
             occurs_in (str_lower query) (str_lower (Entry.username v)))) ∧
    (str_lower query = EmptyString → results = passwords s) ∧
    (lower_empty_law → query = EmptyString → results = passwords s) ∧
    ((∀ k v, (k, v) ∈ passwords s →
             ¬ occurs_in (str_lower query) k ∧
             ¬ occurs_in (str_lower query) (str_lower (Entry.username v))) →
     results = []).
Proof.
  intros Hwf. destruct (search_run query s) as [out Hrun].
  eexists _, _. split; [exact Hrun|]. split; [done|].
  rewrite (dict_comprehension_filter _ _ Hwf).
  assert (Hcond : ∀ k v, search_cond (str_lower query) k v = true ↔
            occurs_in (str_lower query) k ∨
            occurs_in (str_lower query) (str_lower (Entry.username v))).
  { intros k v. unfold search_cond.
    by rewrite orb_true_iff, !str_in_occurs. }
  split; [apply sublist_filter|]. split; [|split; [|split]].
  - intros k v. rewrite list_elem_of_filter. simpl. rewrite Hcond. tauto.
  - intros Hq. apply filter_all. intros [k v] _. simpl.
    unfold search_cond. by rewrite Hq, str_in_empty.
  - intros Hlaw ->. apply filter_all. intros [k v] _. simpl.
    unfold search_cond. by rewrite Hlaw, str_in_empty.
  - intros Hno. apply filter_none. intros [k v] Hin. simpl.
    rewrite Hcond. destruct (Hno k v Hin). tauto.
Qed.

End lookup_claims.

(** ** Unlocking *)

Section unlocking.
Context `{L : PyLib}.

(** [_load_passwords] always comes back with a mapping; it changes nothing
    but the output. *)
Lemma load_returns s :
  ∃ d out, _load_passwords s = (Return d, with_stdout (stdout s ++ out) s).
Proof.
  assert (Hs : with_stdout (stdout s ++ []) s = s).
  { destruct s. simpl. by rewrite app_nil_r. }
  destruct (data_file s) as [c|] eqn:Hd.
  - destruct (cipher s) as [k|] eqn:Hc.
    + destruct (Fernet_decrypt k c) as [p|] eqn:Hp.
      * destruct (bytes_decode p) as [text|] eqn:Ht.
        -- destruct (json_loads text) as [d|] eqn:Hj.
           ++ exists d, []. rewrite Hs. by eapply load_ok.
           ++ eexists [], _. by eapply load_unparsable.
        -- eexists [], _. by eapply load_undecodable.
      * eexists [], _. by eapply load_undecryptable.
    + eexists [], _. by eapply load_no_cipher.
  - exists [], []. rewrite Hs. by apply load_absent.
Qed.

(** With a usable key file, [_initialize_encryption] returns and touches
    neither the master hash, the vault file, nor the output. *)
Lemma initialize_encryption_returns s :
  key_file_usable s →
  ∃ s', _initialize_encryption s = (Return (), s') ∧
        master_hash_file s' = master_hash_file s ∧
        data_file s' = data_file s ∧ stdout s' = stdout s.
Proof.
  unfold key_file_usable, _initialize_encryption. intros Hk.
  rewrite (bind_Return get_state _ s s s); [|done].
  destruct (key_file s) as [k|].
  - unfold mbind, M_bind, mret, M_ret, modify. rewrite Hk. eauto.
  - unfold mbind, M_bind, mret, M_ret, modify, urandom. rewrite Hk. eauto.
Qed.

(** With a key file [Fernet] rejects, it raises [ValueError]; the files
    and the output are as they were. *)
Lemma initialize_encryption_raises s k :
  key_file s = Some k → Fernet_key_ok k = false →
  ∃ s', _initialize_encryption s = (Raise ValueError, s') ∧
        master_hash_file s' = master_hash_file s ∧
        key_file s' = key_file s ∧
        data_file s' = data_file s ∧ stdout s' = stdout s ∧
        cipher s' = cipher s ∧ passwords s' = passwords s ∧
        tty_in s' = tty_in s.
Proof.
  intros Hf Hk. unfold _initialize_encryption.
  rewrite (bind_Return get_state _ s s s); [|done].
  destruct (key_file s) as [k'|] eqn:Hf'; [|done]. simplify_eq.
  unfold mbind, M_bind, mret, M_ret, modify. rewrite Hk.
  eexists. split; [reflexivity|]. simpl. by rewrite Hf'.
Qed.

(** C4, as the code has it. With a master hash on disk,
    [setup_master_password] returns [False] for a typed password whose hash
    differs from the stored one, and then the hash file, the key file, the
    vault file and the object are as they were: only the rejection is
    printed. A password whose hash equals the stored one is accepted, and
    the method goes on to the key and the vault. It returns [True] when the
    key file holds a key [Fernet] accepts, or there is none and the
    generated one is accepted. On a key file [Fernet] rejects it does not
    return: the [ValueError] of [Fernet(key)] reaches the caller, with no
    cipher made and the vault not loaded. The hash file is untouched every
    time. *)
Theorem setup_master_password_verifies
    (s : State) (stored candidate : string) (rest : list string) :
  master_hash_file s = Some stored → tty_in s = candidate :: rest →
  (_hash_password candidate = stored → key_file_usable s →
   ∃ s', setup_master_password s = (Return true, s') ∧
         master_hash_file s' = Some stored) ∧
  (_hash_password candidate = stored →
   ∀ k, key_file s = Some k → Fernet_key_ok k = false →
   ∃ s', setup_master_password s = (Raise ValueError, s') ∧
         master_hash_file s' = Some stored ∧
         key_file s' = Some k ∧ data_file s' = data_file s ∧
         stdout s' = stdout s ∧ tty_in s' = rest ∧
         cipher s' = cipher s ∧ passwords s' = passwords s) ∧
  (_hash_password candidate ≠ stored →
   setup_master_password s
   = (Return false,
      with_stdout (stdout s ++ ["❌ Incorrect master password!"])
        (with_tty_in rest s)) ∧
   master_hash_file (setup_master_password s).2 = Some stored).
Proof.
  intros Hm Ht.
  assert (Hstart : ∀ B (f : bool → M B),
    (s0 ← get_state;
     proceed ← match master_hash_file s0 with
               | Some _ =>
                   stored_hash ← _load_master_hash;
                   master ← getpass;
                   if decide (_hash_password master ≠ stored_hash) then
                     print "❌ Incorrect master password!";; mret false
                   else mret true
               | None =>
                   print "First time setup - Create a master password";;
                   master ← getpass;
                   confirm ← getpass;
                   if decide (master ≠ confirm) then
                     print "❌ Passwords don't match!";; mret false
                   else
                     _save_master_hash master;;
                     print "✓ Master password created!";;
                     mret true
               end;
     f proceed) s
    = if decide (_hash_password candidate ≠ stored)
      then f false (with_stdout (stdout s ++ ["❌ Incorrect master password!"])
                      (with_tty_in rest s))
      else f true (with_tty_in rest s)).
  { intros B f.
    rewrite (bind_Return get_state _ s s s); [|done]. rewrite Hm.
    unfold mbind, M_bind, _load_master_hash, getpass. rewrite Hm, Ht.
    by destruct (decide (_hash_password candidate ≠ stored)). }
  split; [|split].
  - intros Hh Hk. unfold setup_master_password. rewrite Hstart.
    rewrite decide_False; [|by intros ?].
    destruct (initialize_encryption_returns (with_tty_in rest s))
      as (s1 & Hinit & Hm1 & _); [exact Hk|].
    destruct (load_returns s1) as (d & out & Hload).
    rewrite (bind_Return _ _ _ _ _ Hinit).
    rewrite (bind_Return _ _ _ _ _ Hload).
    eexists. split; [reflexivity|]. simpl. by rewrite Hm1.
  - intros Hh k Hf Hk. unfold setup_master_password. rewrite Hstart.
    rewrite decide_False; [|by intros ?].
    destruct (initialize_encryption_raises (with_tty_in rest s) k Hf Hk)
      as (s1 & Hinit & Hm1 & Hf1 & Hd1 & Ho1 & Hc1 & Hp1 & Ht1).
    rewrite (bind_Raise _ _ _ _ _ Hinit).
    exists s1. split; [reflexivity|].
    rewrite Hm1, Hf1, Hd1, Ho1, Hc1, Hp1, Ht1. simpl.
    split; [done|]. split; [done|]. by repeat split.
  - intros Hh. unfold setup_master_password. rewrite Hstart.
    rewrite decide_True; [|done]. by split.
Qed.

(** What the hypothesis on the key file keeps out: a key file [Fernet]
    rejects. The master password is accepted, and the [ValueError] of
    [Fernet(key)] ends the method. *)
Lemma setup_master_password_bad_key
    (s : State) (stored candidate : string) (rest : list string) (k : bytes) :
  master_hash_file s = Some stored → tty_in s = candidate :: rest →
  _hash_password candidate = stored →
  key_file s = Some k → Fernet_key_ok k = false →
  ∃ s', setup_master_password s = (Raise ValueError, s').
Proof.
  intros Hm Ht Hh Hf Hk.
  destruct (initialize_encryption_raises (with_tty_in rest s) k Hf Hk)
    as (s' & Hinit & _).
  exists s'. unfold setup_master_password.
  rewrite (bind_Return get_state _ s s s); [|done]. rewrite Hm.
  unfold mbind at 1. unfold M_bind at 1.
  unfold mbind at 1. unfold M_bind at 1.
  unfold _load_master_hash at 1. rewrite Hm.
  unfold mbind at 1. unfold M_bind at 1. unfold getpass at 1. rewrite Ht.
  rewrite decide_False; [|by intros ?].
  unfold mret at 1. unfold M_ret at 1.
  by rewrite (bind_Raise _ _ _ _ _ Hinit).
Qed.

End unlocking.

(** ** The claims on concrete runs *)

Section runs.
#[local] Existing Instance Toy.lib.

Lemma save_then_load_round_trip_witness :
  ∃ s1,
    _save_passwords Demo.with_gmail = (Return (), s1) ∧
    _load_passwords (with_passwords [] s1)
    = (Return (passwords Demo.with_gmail), with_passwords [] s1).
Proof.
  destruct (save_then_load_round_trip Demo.with_gmail Demo.key)
    as (s1 & Hsave & Hfile & Hload).
  - exact toy_decrypt_encrypt.
  - exact toy_decode_encode.
  - exact toy_loads_dumps.
  - reflexivity.
  - reflexivity.
  - unfold wf_dict. vm_compute. apply NoDup_singleton.
  - exact I.
  - exists s1. split; [exact Hsave|].
    apply Hload; [reflexivity|].
    apply (f_equal (λ r, cipher r.2)) in Hsave. exact (eq_sym Hsave).
Defined.

(** C2 as the specification words it fails: the vault file is there and
    does not decrypt, and [_load_passwords] hands its caller the empty
    mapping, where the vault had a record. *)
Lemma load_damaged_returns_empty_vault :
  data_file Demo.damaged = Some Demo.junk ∧
  Fernet_decrypt Demo.key Demo.junk = None ∧
  (_load_passwords Demo.damaged).1 = Return [] ∧
  passwords Demo.damaged ≠ [].
Proof. by vm_compute. Qed.

Lemma load_failure_returns_empty_witness :
  _load_passwords Demo.damaged
  = (Return [],
     with_stdout (stdout Demo.damaged ++ [load_error InvalidToken])
       Demo.damaged).
Proof.
  apply (load_failure_returns_empty Demo.damaged Demo.junk Demo.key);
    reflexivity.
Defined.

(** C3 as the specification words it fails: the disk is full, the write
    fails, and [add_password] still returns normally; its last printed line
    reports success, the vault in memory has the record and the file is
    empty. *)
Lemma add_password_on_full_disk_returns :
  write_fails Demo.disk_full ∧
  (add_password "Gmail" "alice" (Some "s3cret") Demo.disk_full).1 = Return () ∧
  last (stdout (add_password "Gmail" "alice" (Some "s3cret") Demo.disk_full).2)
  = Some "✓ Password saved for Gmail" ∧
  passwords (add_password "Gmail" "alice" (Some "s3cret") Demo.disk_full).2
  = [("gmail", Entry.mk "Gmail" "alice" "s3cret")] ∧
  data_file (add_password "Gmail" "alice" (Some "s3cret") Demo.disk_full).2
  = Some [].
Proof. by vm_compute. Qed.

Lemma persist_failure_is_swallowed_witness :
  ∃ pw pre s',
    add_password "Gmail" "alice" (Some "s3cret") Demo.disk_full
    = (Return (), s') ∧
    (∀ p, Some "s3cret" = Some p → pw = p) ∧
    passwords s'
    = dict_set (str_lower "Gmail") (Entry.mk "Gmail" "alice" pw)
               (passwords Demo.disk_full) ∧
    stdout s'
    = stdout Demo.disk_full ++ pre
      ++ [save_error OSError; "✓ Password saved for " +:+ "Gmail"].
Proof.
  destruct (persist_failure_is_swallowed Demo.disk_full Demo.key)
    as (Hadd & _ & _).
  - reflexivity.
  - exact I.
  - apply Hadd.
Defined.

(** C4 as the specification words it fails: the hash of the typed password
    equals the stored hash, and [setup_master_password] does not return
    [True]: the key file holds bytes [Fernet] rejects, and the [ValueError]
    of [Fernet(key)] reaches the caller. *)
Lemma matching_password_raises_on_rejected_key :
  master_hash_file Demo.bad_key_run = Some Demo.stored_hash ∧
  tty_in Demo.bad_key_run = ["pw"] ∧
  _hash_password "pw" = Demo.stored_hash ∧
  key_file Demo.bad_key_run = Some Demo.junk ∧
  Fernet_key_ok Demo.junk = false ∧
  (setup_master_password Demo.bad_key_run).1 = Raise ValueError ∧
  (setup_master_password Demo.bad_key_run).1 ≠ Return true.
Proof. by vm_compute. Qed.

Lemma setup_master_password_verifies_witness :
  (∃ s', setup_master_password (Demo.later_run "pw") = (Return true, s') ∧
         master_hash_file s' = Some Demo.stored_hash) ∧
  (∃ s', setup_master_password Demo.bad_key_run = (Raise ValueError, s') ∧
         master_hash_file s' = Some Demo.stored_hash) ∧
  (setup_master_password (Demo.later_run "bad")).1 = Return false ∧
  master_hash_file (setup_master_password (Demo.later_run "bad")).2
  = Some Demo.stored_hash.
Proof.
  split; [|split].
  - apply (setup_master_password_verifies
             (Demo.later_run "pw") Demo.stored_hash "pw" []);
      reflexivity.
  - destruct (setup_master_password_verifies
                Demo.bad_key_run Demo.stored_hash "pw" [])
      as (_ & Hkey & _); [reflexivity | reflexivity |].
    destruct (Hkey eq_refl Demo.junk) as (s' & Hrun & Hhash & _);
      [reflexivity | reflexivity |].
    by exists s'.
  - destruct (setup_master_password_verifies
                (Demo.later_run "bad") Demo.stored_hash "bad" [])
      as (_ & _ & Hbad); [reflexivity | reflexivity |].
    destruct Hbad as [Hrun Hhash]; [by vm_compute|].
    split; [by rewrite Hrun | exact Hhash].
Defined.

(** The example of the specification: ["Gmail"], then ["gmail"]. *)
Lemma one_record_per_service_key_witness :
  ∃ pw s',
    add_password "gmail" "bob" (Some "hunter2") Demo.with_gmail
    = (Return (), s') ∧
    (∀ p, Some "hunter2" = Some p → pw = p) ∧
    filter (λ kv : string * entry, kv.1 = str_lower "gmail") (passwords s')
    = [(str_lower "gmail", Entry.mk "gmail" "bob" pw)] ∧
    dict_get (str_lower "gmail") (passwords s')
    = Some (Entry.mk "gmail" "bob" pw) ∧
    (∀ k', str_lower "gmail" ≠ k' →
           dict_get k' (passwords s') = dict_get k' (passwords Demo.with_gmail)) ∧
    length (passwords s') = length (passwords Demo.with_gmail).
Proof.
  destruct (one_record_per_service_key Demo.with_gmail)
    as (_ & _ & _ & _ & _ & _ & Hover).
  - split.
    + unfold wf_dict. vm_compute. apply NoDup_singleton.
    + vm_compute. by repeat constructor.
  - apply (Hover "gmail" "bob" (Some "hunter2") "gmail"
             (Entry.mk "Gmail" "alice" "s3cret")).
    + vm_compute. apply list_elem_of_here.
    + reflexivity.
Defined.

(** C8 as the specification words it fails: deleting a service that has no
    record raises nothing and returns what a removal returns. *)
Lemma delete_unknown_returns_normally :
  dict_get (str_lower "Ghost") (passwords Demo.with_gmail) = None ∧
  (delete_password "Ghost" Demo.with_gmail).1 = Return () ∧
  (delete_password "Ghost" Demo.with_gmail).1
  = (delete_password "Gmail" Demo.with_gmail).1.
Proof. by vm_compute. Qed.

Lemma delete_password_removes_witness :
  ∃ s',
    delete_password "GMAIL" Demo.with_gmail = (Return (), s') ∧
    passwords s' = [] ∧
    get_password "GMAIL" s' = (Return None, s') ∧
    (delete_password "GMAIL" s').1 = Return ().
Proof.
  destruct (delete_password_removes Demo.with_gmail "GMAIL") as [Hfound _].
  - unfold wf_dict. vm_compute. apply NoDup_singleton.
  - destruct (Hfound (Entry.mk "Gmail" "alice" "s3cret"))
      as (s' & Hrun & Hpw & _ & _ & Hget & Hagain); [reflexivity|].
    exists s'. split; [exact Hrun|]. split; [by rewrite Hpw|].
    split; [exact Hget | by rewrite Hagain].
Defined.

Lemma search_returns_matches_witness :
  ∃ results s',
    search "MAIL" Demo.with_gmail = (Return results, s') ∧
    results `sublist_of` passwords Demo.with_gmail ∧
    (∀ k v, (k, v) ∈ results ↔
            (k, v) ∈ passwords Demo.with_gmail ∧
            (occurs_in (str_lower "MAIL") k ∨
             occurs_in (str_lower "MAIL") (str_lower (Entry.username v)))).
Proof.
  destruct (search_returns_matches Demo.with_gmail "MAIL")
    as (results & s' & Hrun & _ & Hsub & Hiff & _).
  - unfold wf_dict. vm_compute. apply NoDup_singleton.
  - exists results, s'. split; [exact Hrun|]. split; [exact Hsub | exact Hiff].
Defined.

(** The examples the specification lists, run. *)

Example string_constants :
  length (chars_of ascii_lowercase) = 26 ∧
  length (chars_of ascii_uppercase) = 26 ∧
  length (chars_of ascii_letters) = 52 ∧
  length (chars_of digits) = 10 ∧
  length (chars_of punctuation) = 32.
Proof. by vm_compute. Qed.

Example generate_12 :
  (generate_password 12 true true Demo.first_run).1 = Return "rF7M%,0=3+TY".
Proof. by vm_compute. Qed.

Example gmail_twice :
  passwords
    (add_password "gmail" "bob" (Some "hunter2") Demo.with_gmail).2
  = [("gmail", Entry.mk "gmail" "bob" "hunter2")].
Proof. by vm_compute. Qed.

Example search_git :
  (search "git" Demo.two_gits).1
  = Return [("github", Entry.mk "GitHub" "alice" "al1ce");
            ("gitlab", Entry.mk "Gitlab" "bob" "b0b")] ∧
  (search "zzz" Demo.two_gits).1 = Return [] ∧
  (search "B" Demo.two_gits).1
  = Return [("github", Entry.mk "GitHub" "alice" "al1ce");
            ("gitlab", Entry.mk "Gitlab" "bob" "b0b")] ∧
  (search "BOB" Demo.two_gits).1
  = Return [("gitlab", Entry.mk "Gitlab" "bob" "b0b")].
Proof. by vm_compute. Qed.

Example delete_then_get :
  (get_password "gmail" (delete_password "gmail" Demo.with_gmail).2).1
  = Return None.
Proof. by vm_compute. Qed.

Example restart_restores_vault :
  passwords (setup_master_password (Demo.later_run "pw")).2
  = passwords Demo.with_gmail.
Proof. by vm_compute. Qed.

(** A key file that holds no [Fernet] key stops the start after the master
    password was accepted: the [ValueError] of [Fernet(key)] is not caught. *)
Example bad_key_file_raises :
  (setup_master_password Demo.bad_key_run).1 = Raise ValueError.
Proof. by vm_compute. Qed.

End runs.

(** * Further properties of the code *)

(** ** The key and the master password *)

Section keys.
Context `{L : PyLib}.

(** [_initialize_encryption] on a key file [Fernet] accepts: the key is
    read, nothing is drawn or written. *)
Lemma initialize_encryption_loads s k :
  key_file s = Some k → Fernet_key_ok k = true →
  _initialize_encryption s
  = (Return (), with_cipher (Some k) (with_key (Some k) s)).
Proof.
  intros Hf Hk. unfold _initialize_encryption.
  rewrite (bind_Return get_state _ s s s); [|done]. rewrite Hf.
  unfold mbind, M_bind, mret, M_ret, modify. by rewrite Hk.
Qed.

(** Without a key file: one key is generated and written. *)
Lemma initialize_encryption_creates s :
  key_file s = None →
  Fernet_key_ok (Fernet_generate_key (entropy s (drawn s))) = true →
  _initialize_encryption s
  = (Return (),
     let k := Fernet_generate_key (entropy s (drawn s)) in
     with_cipher (Some k)
       (with_key_file (Some k)
          (with_key (Some k) (with_drawn (S (drawn s)) s)))).
Proof.
  intros Hf Hk. unfold _initialize_encryption.
  rewrite (bind_Return get_state _ s s s); [|done]. rewrite Hf.
  unfold mbind, M_bind, mret, M_ret, modify, urandom. by rewrite Hk.
Qed.


(** How [setup_master_password] starts when the hash file is there. *)
Lemma setup_verify_prefix (s : State) stored candidate rest :
  master_hash_file s = Some stored → tty_in s = candidate :: rest →
  setup_master_password s
  = if decide (_hash_password candidate ≠ stored)
    then (Return false,
          with_stdout (stdout s ++ ["❌ Incorrect master password!"])
            (with_tty_in rest s))
    else (_initialize_encryption;;
          d ← _load_passwords;
          modify (with_passwords d);;
          mret true) (with_tty_in rest s).
Proof.
  intros Hm Ht. unfold setup_master_password.
  rewrite (bind_Return get_state _ s s s); [|done]. rewrite Hm.
  unfold mbind at 1. unfold M_bind at 1.
  unfold mbind at 1. unfold M_bind at 1.
  unfold _load_master_hash at 1. rewrite Hm.
  unfold mbind at 1. unfold M_bind at 1. unfold getpass at 1. rewrite Ht.
  by destruct (decide (_hash_password candidate ≠ stored)).
Qed.

(** How it starts when there is none and the two typed lines agree. *)
Lemma setup_create_prefix (s : State) master rest :
  master_hash_file s = None → tty_in s = master :: master :: rest →
  setup_master_password s
  = (_initialize_encryption;;
     d ← _load_passwords;
     modify (with_passwords d);;
     mret true)
      (with_stdout
         (stdout s ++ ["First time setup - Create a master password";
                       "✓ Master password created!"])
         (with_master_hash_file (Some (_hash_password master))
            (with_tty_in rest s))).
Proof.
  intros Hm Ht. unfold setup_master_password.
  rewrite (bind_Return get_state _ s s s); [|done]. rewrite Hm.
  unfold mbind at 1. unfold M_bind at 1.
  unfold mbind at 1. unfold M_bind at 1.
  unfold print at 1. unfold modify at 1.
  unfold mbind at 1. unfold M_bind at 1. unfold getpass at 1.
  simpl tty_in. rewrite Ht.
  unfold mbind at 1. unfold M_bind at 1. unfold getpass at 1.
  simpl tty_in. cbv beta iota.
  rewrite decide_False; [|by intros ?].
  unfold mbind at 1. unfold M_bind at 1.
  unfold _save_master_hash, modify at 1.
  unfold mbind at 1. unfold M_bind at 1. unfold print at 1. unfold modify at 1.
  unfold mret at 1. unfold M_ret at 1. cbv beta iota.
  f_equal. destruct s. simpl. by rewrite <- app_assoc.
Qed.

(** After the master password is settled: the key, then the vault. *)
Lemma unlock_tail (t : State) :
  key_file_usable t →
  ∃ t1 k d out,
    _initialize_encryption t = (Return (), t1) ∧
    key_file t1 = Some k ∧ key t1 = Some k ∧ cipher t1 = Some k ∧
    Fernet_key_ok k = true ∧
    (∀ k0, key_file t = Some k0 → k0 = k) ∧
    master_hash_file t1 = master_hash_file t ∧ data_file t1 = data_file t ∧
    tty_in t1 = tty_in t ∧ stdout t1 = stdout t ∧
    _load_passwords t1 = (Return d, with_stdout (stdout t1 ++ out) t1) ∧
    (_initialize_encryption;;
     d ← _load_passwords;
     modify (with_passwords d);;
     mret true) t
    = (Return true, with_passwords d (with_stdout (stdout t1 ++ out) t1)).
Proof.
  unfold key_file_usable. intros Hk.
  assert (Hgo : ∀ t1, _initialize_encryption t = (Return (), t1) →
            ∀ d out,
              _load_passwords t1 = (Return d, with_stdout (stdout t1 ++ out) t1) →
              (_initialize_encryption;;
               d ← _load_passwords;
               modify (with_passwords d);;
               mret true) t
              = (Return true,
                 with_passwords d (with_stdout (stdout t1 ++ out) t1))).
  { intros t1 Hinit d out Hload.
    rewrite (bind_Return _ _ _ _ _ Hinit).
    by rewrite (bind_Return _ _ _ _ _ Hload). }
  destruct (key_file t) as [k|] eqn:Hf.
  - pose proof (initialize_encryption_loads t k Hf Hk) as Hinit.
    destruct (load_returns (with_cipher (Some k) (with_key (Some k) t)))
      as (d & out & Hload).
    eexists _, k, d, out. split; [exact Hinit|].
    do 4 (split; [done|]). split; [by intros k0 [= ->]|].
    do 4 (split; [done|]). split; [exact Hload|].
    by apply Hgo.
  - pose proof (initialize_encryption_creates t Hf Hk) as Hinit.
    simpl in Hinit.
    match type of Hinit with _ = (_, ?t1) =>
      destruct (load_returns t1) as (d & out & Hload) end.
    eexists _, _, d, out. split; [exact Hinit|].
    do 4 (split; [done|]). split; [done|].
    do 4 (split; [done|]). split; [exact Hload|].
    by apply Hgo.
Qed.

(** X2. The first start. With no hash file and the same line typed twice,
    [setup_master_password] stores the hash of that line and goes on to the
    key. When [Fernet] accepts the key (the one in the key file, which is
    kept, or without a key file the generated one), it loads the vault and
    returns [True]; the vault file is not touched, and without one the vault
    is empty and nothing but the two setup lines is printed. When the key
    file holds a key [Fernet] rejects, the call ends with the [ValueError]
    of [Fernet(key)], after the hash was stored and its creation printed:
    the hash file stays behind, no cipher is made and the vault is not
    loaded. *)
Theorem first_setup_creates_master
    (s : State) (master : string) (rest : list string) :
  master_hash_file s = None → tty_in s = master :: master :: rest →
  (key_file_usable s →
   ∃ s' k,
     setup_master_password s = (Return true, s') ∧
     master_hash_file s' = Some (_hash_password master) ∧
     key_file s' = Some k ∧ key s' = Some k ∧ cipher s' = Some k ∧
     Fernet_key_ok k = true ∧
     (∀ k0, key_file s = Some k0 → k0 = k) ∧
     data_file s' = data_file s ∧ tty_in s' = rest ∧
     (data_file s = None →
      passwords s' = [] ∧
      stdout s'
      = stdout s ++ ["First time setup - Create a master password";
                     "✓ Master password created!"])) ∧
  (∀ k, key_file s = Some k → Fernet_key_ok k = false →
   ∃ s',
     setup_master_password s = (Raise ValueError, s') ∧
     master_hash_file s' = Some (_hash_password master) ∧
     key_file s' = Some k ∧ data_file s' = data_file s ∧
     cipher s' = cipher s ∧ passwords s' = passwords s ∧
     tty_in s' = rest ∧
     stdout s'
     = stdout s ++ ["First time setup - Create a master password";
                    "✓ Master password created!"]).
Proof.
  intros Hm Ht. rewrite (setup_create_prefix s master rest Hm Ht). split.
  - intros Hk.
    match goal with |- context [_ ?t = (Return true, _)] =>
      destruct (unlock_tail t Hk)
        as (t1 & k & d & out & Hinit & Hkf & Hky & Hc & Hok & Hsame & Hmh
            & Hdf & Hti & Hso & Hload & Hrun) end.
    rewrite Hrun. eexists _, k. split; [reflexivity|]. simpl.
    rewrite Hmh, Hkf, Hky, Hc, Hdf, Hti. simpl.
    do 5 (split; [done|]). split; [exact Hsame|]. do 2 (split; [done|]).
    intros Hnone.
    assert (Hd1 : data_file t1 = None) by (by rewrite Hdf).
    rewrite (load_absent t1 Hd1) in Hload.
    injection Hload as <- Hst.
    split; [done|].
    apply (f_equal stdout) in Hst. simpl in Hst. rewrite <- Hst, Hso. done.
  - intros k Hf Hk.
    match goal with |- context [_ ?t = (Raise ValueError, _)] =>
      destruct (initialize_encryption_raises t k Hf Hk)
        as (t1 & Hinit & Hmh & Hkf & Hdf & Hso & Hc & Hp & Hti) end.
    rewrite (bind_Raise _ _ _ _ _ Hinit).
    exists t1. split; [reflexivity|].
    rewrite Hmh, Hkf, Hdf, Hso, Hc, Hp, Hti. simpl.
    split; [done|]. split; [done|]. by repeat split.
Qed.

(** A first start with two different lines, run. *)
Lemma setup_mismatch_run
    (s : State) (master confirm : string) (rest : list string) :
  master_hash_file s = None → tty_in s = master :: confirm :: rest →
  master ≠ confirm →
  setup_master_password s
  = (Return false,
     with_stdout
       (stdout s ++ ["First time setup - Create a master password";
                     "❌ Passwords don't match!"])
       (with_tty_in rest s)).
Proof.
  intros Hm Ht Hne. unfold setup_master_password.
  rewrite (bind_Return get_state _ s s s); [|done]. rewrite Hm.
  unfold mbind at 1. unfold M_bind at 1.
  unfold mbind at 1. unfold M_bind at 1.
  unfold print at 1. unfold modify at 1.
  unfold mbind at 1. unfold M_bind at 1. unfold getpass at 1.
  simpl tty_in. rewrite Ht.
  unfold mbind at 1. unfold M_bind at 1. unfold getpass at 1.
  simpl tty_in. cbv beta iota.
  rewrite decide_True; [|done].
  unfold mbind at 1. unfold M_bind at 1. unfold print at 1. unfold modify at 1.
  unfold mret, M_ret. cbv beta iota.
  f_equal. destruct s. simpl. by rewrite <- app_assoc.
Qed.

(** X3. A first start where the confirmation differs: [False] comes back
    after two printed lines, and nothing was created or changed: there is
    still no hash file, and the key file, the vault file and the object are
    as they were. *)
Theorem first_setup_mismatch
    (s : State) (master confirm : string) (rest : list string) :
  master_hash_file s = None → tty_in s = master :: confirm :: rest →
  master ≠ confirm →
  ∃ s',
    setup_master_password s = (Return false, s') ∧
    master_hash_file s' = None ∧
    key_file s' = key_file s ∧ data_file s' = data_file s ∧
    key s' = key s ∧ cipher s' = cipher s ∧ passwords s' = passwords s ∧
    drawn s' = drawn s ∧ tty_in s' = rest ∧
    stdout s'
    = stdout s ++ ["First time setup - Create a master password";
                   "❌ Passwords don't match!"].
Proof.
  intros Hm Ht Hne.
  rewrite (setup_mismatch_run s master confirm rest Hm Ht Hne).
  eexists. split; [reflexivity|]. simpl.
  split; [exact Hm|]. by repeat split.
Qed.

(** X4. The password set at the first start is the one later starts ask
    for. On the files a first start left, in a new process, a typed line
    with the same hash is accepted, and a line with another hash is
    rejected with nothing changed. This is for a first start whose key
    [Fernet] accepts: the one in the key file or, without a key file, the
    generated one. *)
Theorem first_setup_then_verify
    (s : State) (master : string) (rest : list string)
    (candidate : string) (tty : list string) (rnd : nat → nat)
    (dk : list disk_event) :
  master_hash_file s = None → tty_in s = master :: master :: rest →
  key_file_usable s →
  let s' := (setup_master_password s).2 in
  let again := fresh (candidate :: tty) rnd (key_file s') (data_file s')
                 (master_hash_file s') dk in
  (_hash_password candidate = _hash_password master →
   (setup_master_password again).1 = Return true) ∧
  (_hash_password candidate ≠ _hash_password master →
   setup_master_password again
   = (Return false,
      with_stdout ["❌ Incorrect master password!"] (with_tty_in tty again))).
Proof.
  intros Hm Ht Hk s' again.
  assert (∃ s1 k, s' = s1 ∧
            master_hash_file s1 = Some (_hash_password master) ∧
            key_file s1 = Some k ∧ Fernet_key_ok k = true)
    as (s1 & k & Hs' & Hmh & Hkf & Hok).
  { unfold s'. rewrite (setup_create_prefix s master rest Hm Ht).
    match goal with |- context [(_ ?t).2] =>
      destruct (unlock_tail t Hk)
        as (t1 & k & d & out & _ & Hkf & _ & _ & Hok & _ & Hmh & _ & _ & _
            & _ & Hrun) end.
    rewrite Hrun. eexists _, k. split; [reflexivity|]. simpl.
    by rewrite Hmh, Hkf. }
  assert (Hm2 : master_hash_file again = Some (_hash_password master))
    by (unfold again; simpl; by rewrite Hs').
  assert (Ht2 : tty_in again = candidate :: tty) by done.
  rewrite (setup_verify_prefix again _ candidate tty Hm2 Ht2).
  split.
  - intros Heq. rewrite decide_False; [|by intros ?].
    assert (Hk2 : key_file_usable (with_tty_in tty again)).
    { unfold key_file_usable, again. simpl. by rewrite Hs', Hkf. }
    destruct (unlock_tail _ Hk2)
      as (t1 & k' & d & out & _ & _ & _ & _ & _ & _ & _ & _ & _ & _ & _ & Hgo).
    by rewrite Hgo.
  - intros Hne. by rewrite decide_True.
Qed.

End keys.

(** ** More on the operations of the vault *)

Section more_operations.
Context `{L : PyLib}.

(** X5. [update_password] changes the password of the record and nothing
    else: its service name and user name, the keys and their order, and the
    other records stay. For a service that has no record it prints one line
    and leaves the state as it was: no password is generated, nothing is
    saved. *)
Theorem update_password_changes_password_only
    (s : State) (service : string) (new_password : option string) :
  (∀ e, dict_get (str_lower service) (passwords s) = Some e →
     ∃ pw s',
       update_password service new_password s = (Return (), s') ∧
       (∀ p, new_password = Some p → pw = p) ∧
       dict_get (str_lower service) (passwords s')
       = Some (Entry.mk (Entry.service e) (Entry.username e) pw) ∧
       (passwords s').*1 = (passwords s).*1 ∧
       (∀ k', str_lower service ≠ k' →
              dict_get k' (passwords s') = dict_get k' (passwords s))) ∧
  (dict_get (str_lower service) (passwords s) = None →
     update_password service new_password s
     = (Return (),
        with_stdout
          (stdout s ++ ["❌ Service " +:+ service +:+ " not found"]) s)).
Proof.
  split; [|apply update_password_missing].
  intros e Hg.
  destruct (update_password_found service new_password e s Hg)
    as (pw & m & pre & Hpw & Hrun). simpl in Hrun.
  eexists pw, _. split; [exact Hrun|]. split; [exact Hpw|].
  simpl. rewrite after_save_passwords. simpl.
  split; [apply dict_get_set|]. split.
  - apply dict_set_keys_present. apply dict_contains_true.
    unfold dict_contains. by rewrite Hg.
  - intros k' Hne. by apply dict_get_set_ne.
Qed.

(** X6. What [add_password] stores, [get_password] finds, under any
    spelling of the service name that lowercases to the same key; looking
    up changes nothing, and the answers for other keys are as before the
    addition. *)
Theorem add_then_get
    (s : State) (service username : string) (password : option string)
    (lookup : string) :
  str_lower lookup = str_lower service →
  ∃ pw s',
    add_password service username password s = (Return (), s') ∧
    (∀ p, password = Some p → pw = p) ∧
    get_password lookup s'
    = (Return (Some (Entry.mk service username pw)), s') ∧
    (∀ other, str_lower service ≠ str_lower other →
              (get_password other s').1 = (get_password other s).1).
Proof.
  intros Hsame.
  destruct (add_password_run service username password s)
    as (pw & m & pre & Hpw & Hrun). simpl in Hrun.
  eexists pw, _. split; [exact Hrun|]. split; [exact Hpw|].
  rewrite !get_password_run. simpl. rewrite after_save_passwords. simpl.
  split.
  - by rewrite Hsame, dict_get_set.
  - intros other Hne. rewrite !get_password_run. simpl.
    rewrite after_save_passwords. simpl. by rewrite dict_get_set_ne.
Qed.

(** X7. A new service goes last: when the key is not in the vault,
    [add_password] appends the record after the ones that are there; when
    it is, the keys and their order do not change. *)
Theorem add_password_keeps_insertion_order
    (s : State) (service username : string) (password : option string) :
  ∃ pw s',
    add_password service username password s = (Return (), s') ∧
    (∀ p, password = Some p → pw = p) ∧
    (dict_get (str_lower service) (passwords s) = None →
     passwords s'
     = passwords s ++ [(str_lower service, Entry.mk service username pw)]) ∧
    (dict_get (str_lower service) (passwords s) ≠ None →
     (passwords s').*1 = (passwords s).*1).
Proof.
  destruct (add_password_run service username password s)
    as (pw & m & pre & Hpw & Hrun). simpl in Hrun.
  eexists pw, _. split; [exact Hrun|]. split; [exact Hpw|].
  simpl. rewrite after_save_passwords. simpl. split.
  - intros Hg. apply dict_set_fresh. by apply dict_get_None.
  - intros Hg. apply dict_set_keys_present.
    destruct (decide (str_lower service ∈ (passwords s).*1)) as [|Hn]; [done|].
    by apply dict_get_None in Hn.
Qed.

(** A generated default password: 16 characters, one of each class. *)
Lemma default_password_run s :
  ∃ pw m,
    generate_password 16 true true s = (Return pw, with_drawn m s) ∧
    String.length pw = 16 ∧
    (∃ c, c ∈ chars_of pw ∧ is_lower c = true) ∧
    (∃ c, c ∈ chars_of pw ∧ is_upper c = true) ∧
    (∃ c, c ∈ chars_of pw ∧ is_digit c = true) ∧
    (∃ c, c ∈ chars_of pw ∧ is_symbol c = true).
Proof.
  destruct (generate_password_run 16 true true s)
    as (out & s' & Hrun & d & p & lo & up & rest & pw & m & -> & -> & Hperm
        & Hd & Hp & Hlo & Hup & Hrest & _).
  exists (String.string_of_list_ascii pw), m. split; [exact Hrun|].
  rewrite length_join, chars_of_join.
  destruct (mandatory_present true true d p lo up rest pw Hperm)
    as (Ilo & Iup & Id & Ip).
  split.
  - rewrite Hperm, !length_app, Hrest. reflexivity.
  - repeat split; eauto.
Qed.

(** The two operations that take an optional password, for any way the
    choice of the password runs. *)
Lemma add_password_with service username password pw s s0 :
  match password with
  | None =>
      password ← generate_password 16 true true;
      print (nl +:+ "🔑 Generated password: " +:+ password);;
      mret password
  | Some password => mret password
  end s = (Return pw, s0) →
  let s1 := with_passwords
              (dict_set (str_lower service)
                        (Entry.mk service username pw) (passwords s0)) s0 in
  add_password service username password s
  = (Return (),
     with_stdout
       (stdout (after_save s1) ++ ["✓ Password saved for " +:+ service])
       (after_save s1)).
Proof.
  intros Hrun s1. unfold add_password. rewrite (bind_Return _ _ _ _ _ Hrun).
  unfold mbind, M_bind, modify, print. fold s1.
  by rewrite save_returns.
Qed.

Lemma update_password_with service new_password e pw s s0 :
  dict_get (str_lower service) (passwords s) = Some e →
  passwords s0 = passwords s →
  match new_password with
  | None =>
      new_password ← generate_password 16 true true;
      print (nl +:+ "🔑 Generated password: " +:+ new_password);;
      mret new_password
  | Some new_password => mret new_password
  end s = (Return pw, s0) →
  let s1 := with_passwords
              (dict_set (str_lower service) (set_password pw e)
                        (passwords s0)) s0 in
  update_password service new_password s
  = (Return (),
     with_stdout
       (stdout (after_save s1)
        ++ ["✓ Password updated for " +:+ Entry.service e])
       (after_save s1)).
Proof.
  intros Hg Hsame Hrun s1. unfold update_password.
  rewrite (bind_Return get_state _ s s s); [|done].
  unfold dict_contains. rewrite Hg.
  change (negb true) with false. cbv iota.
  rewrite (bind_Return _ _ _ _ _ Hrun).
  rewrite (bind_Return get_state _ s0 s0 s0); [|done].
  rewrite Hsame, Hg. rewrite <- Hsame.
  unfold mbind at 1. unfold M_bind, modify. fold s1.
  rewrite (bind_Return _ _ _ _ _ (save_returns s1)).
  rewrite (bind_Return get_state _ _ (after_save s1) (after_save s1)); [|done].
  rewrite after_save_passwords. change (passwords s1) with
    (dict_set (str_lower service) (set_password pw e) (passwords s0)).
  by rewrite dict_get_set.
Qed.

(** X8. Called without a password, [add_password] and [update_password]
    generate one of 16 characters that holds a lowercase letter, an
    uppercase letter, a digit and a symbol, print it, and store exactly that
    password in the record. *)
Theorem generated_password_is_stored (s : State) (service : string) :
  ∃ pw,
    String.length pw = 16 ∧
    (∃ c, c ∈ chars_of pw ∧ is_lower c = true) ∧
    (∃ c, c ∈ chars_of pw ∧ is_upper c = true) ∧
    (∃ c, c ∈ chars_of pw ∧ is_digit c = true) ∧
    (∃ c, c ∈ chars_of pw ∧ is_symbol c = true) ∧
    (∀ username, ∃ s',
       add_password service username None s = (Return (), s') ∧
       dict_get (str_lower service) (passwords s')
       = Some (Entry.mk service username pw) ∧
       (nl +:+ "🔑 Generated password: " +:+ pw) ∈ stdout s') ∧
    (∀ e, dict_get (str_lower service) (passwords s) = Some e →
       ∃ s',
         update_password service None s = (Return (), s') ∧
         dict_get (str_lower service) (passwords s')
         = Some (set_password pw e) ∧
         (nl +:+ "🔑 Generated password: " +:+ pw) ∈ stdout s').
Proof.
  destruct (default_password_run s)
    as (pw & m & Hgen & Hlen & Hlo & Hup & Hdi & Hsy).
  set (s0 := with_stdout
               (stdout s ++ [nl +:+ "🔑 Generated password: " +:+ pw])
               (with_drawn m s)).
  assert (Hch :
    (password ← generate_password 16 true true;
     print (nl +:+ "🔑 Generated password: " +:+ password);;
     mret password) s = (Return pw, s0)).
  { by rewrite (bind_Return _ _ _ _ _ Hgen). }
  assert (Hout : ∀ (x : State) tail_,
    stdout x = stdout s ++ [nl +:+ "🔑 Generated password: " +:+ pw] →
    (nl +:+ "🔑 Generated password: " +:+ pw)
    ∈ stdout (with_stdout (stdout (after_save x) ++ tail_) (after_save x))).
  { intros x tail_ Hx. simpl. apply elem_of_app. left.
    unfold after_save. rewrite save_run.
    destruct (cipher x); [destruct (disk x) as [|[| |kept] later]|]; simpl;
      rewrite ?Hx, ?elem_of_app, ?list_elem_of_singleton; auto. }
  exists pw. do 5 (split; [done|]). split.
  - intros username. eexists. split.
    + apply (add_password_with service username None pw s s0 Hch).
    + split.
      * simpl. rewrite after_save_passwords. simpl. apply dict_get_set.
      * by apply Hout.
  - intros e Hg. eexists. split.
    + by apply (update_password_with service None e pw s s0 Hg).
    + split.
      * simpl. rewrite after_save_passwords. simpl. apply dict_get_set.
      * by apply Hout.
Qed.

End more_operations.

(** ** Listing *)

Section listing.
Context `{L : PyLib}.

Lemma list_services_loop (d : dict) (start : nat) s :
  for_each (zip (seq start (length d)) d)
    (λ '(i, (_, data)),
       print (pretty i +:+ ". " +:+ Entry.service data +:+
              " (" +:+ Entry.username data +:+ ")")) s
  = (Return (),
     with_stdout
       (stdout s
        ++ imap (λ i kv, pretty (start + i) +:+ ". " +:+ Entry.service kv.2
                         +:+ " (" +:+ Entry.username kv.2 +:+ ")") d) s).
Proof.
  revert start s. induction d as [|[k v] d IH]; intros start s.
  - simpl. destruct s. unfold mret, M_ret. simpl. by rewrite app_nil_r.
  - simpl length. simpl seq. simpl zip. simpl for_each.
    unfold mbind at 1. unfold M_bind at 1. unfold print at 1.
    unfold modify at 1. cbv beta iota.
    rewrite IH. unfold with_stdout. simpl. rewrite <- app_assoc. simpl.
    rewrite Nat.add_0_r. do 4 f_equal.
    apply imap_ext. intros i x _. simpl. by rewrite Nat.add_succ_r.
Qed.

(** [list_services], run. *)
Lemma list_services_run (s : State) :
  list_services s
  = (Return (), with_stdout (stdout s ++ service_lines (passwords s)) s).
Proof.
  unfold list_services, service_lines.
  rewrite (bind_Return get_state _ s s s); [|done].
  destruct (passwords s) as [|kv d] eqn:Hd; [done|].
  unfold mbind at 1. unfold M_bind at 1. unfold print at 1.
  unfold modify at 1. cbv beta iota.
  rewrite (list_services_loop (kv :: d) 1). simpl.
  by rewrite <- app_assoc.
Qed.

(** X9. [list_services] prints, after a heading, one line per record in
    insertion order, numbered from 1, with the service name as it was typed
    and the user name; for an empty vault it prints a single line. It
    changes nothing else. *)
Theorem list_services_prints (s : State) :
  list_services s
  = (Return (), with_stdout (stdout s ++ service_lines (passwords s)) s) ∧
  length (service_lines (passwords s))
  = match passwords s with [] => 1 | d => S (length d) end ∧
  ∀ i k e,
    passwords s !! i = Some (k, e) →
    service_lines (passwords s) !! S i
    = Some (pretty (S i) +:+ ". " +:+ Entry.service e +:+
            " (" +:+ Entry.username e +:+ ")").
Proof.
  split; [apply list_services_run|].
  unfold service_lines. destruct (passwords s) as [|kv d]; [by split|].
  split.
  - simpl. by rewrite length_imap.
  - intros i k e Hi. rewrite lookup_cons. cbv iota.
    rewrite list_lookup_imap, Hi. reflexivity.
Qed.

End listing.

(** ** The vault across restarts *)

Section restart.
Context `{L : PyLib}.

(** A new process on the files a successful save left, the right master
    password typed: the vault that was saved comes back. *)
Lemma restart_on_saved (x : State) (k : bytes) (master : string)
    (kf df : option bytes) (mf : option string)
    (tty : list string) (rnd : nat → nat) (dk : list disk_event) :
  decrypt_encrypt_law → decode_encode_law → loads_dumps_law →
  cipher x = Some k → Fernet_key_ok k = true →
  wf_dict (passwords x) → write_succeeds x →
  kf = Some k → df = data_file (after_save x) →
  mf = Some (_hash_password master) →
  ∃ s2,
    setup_master_password (fresh (master :: tty) rnd kf df mf dk)
    = (Return true, s2) ∧
    passwords s2 = passwords x.
Proof.
  intros Hfernet Hutf Hjson Hc Hok Hwf Hw -> -> ->.
  destruct (after_save_ok x k Hc Hw) as [Hfile _].
  rewrite (setup_verify_prefix _ (_hash_password master) master tty);
    [|done|done].
  rewrite decide_False; [|by intros ?].
  match goal with |- context [_ ?t = (Return true, _)] => set (t0 := t) end.
  assert (Hinit : _initialize_encryption t0
                  = (Return (), with_cipher (Some k) (with_key (Some k) t0)))
    by by apply initialize_encryption_loads.
  set (t1 := with_cipher (Some k) (with_key (Some k) t0)) in *.
  assert (Hload : _load_passwords t1 = (Return (passwords x), t1)).
  { eapply load_ok.
    - exact Hfile.
    - done.
    - by apply Hfernet.
    - apply Hutf.
    - by apply Hjson. }
  rewrite (bind_Return _ _ _ _ _ Hinit).
  rewrite (bind_Return _ _ _ _ _ Hload).
  eexists. split; [reflexivity|]. done.
Qed.

(** X10. What was saved is there after a restart. In a session whose
    cipher holds the key of the key file, after an [add_password], or a
    [delete_password] or [update_password] of a stored service, whose write
    went through, a new process started on the files left behind, with the
    master password typed, returns [True] and holds the vault as the
    operation left it. *)
Theorem vault_survives_restart (s : State) (k : bytes) (master : string) :
  decrypt_encrypt_law → decode_encode_law → loads_dumps_law →
  cipher s = Some k → key_file s = Some k → Fernet_key_ok k = true →
  master_hash_file s = Some (_hash_password master) →
  wf_dict (passwords s) → write_succeeds s →
  ∀ (tty : list string) (rnd : nat → nat) (dk : list disk_event),
  let restart (s1 : State) :=
    setup_master_password
      (fresh (master :: tty) rnd (key_file s1) (data_file s1)
         (master_hash_file s1) dk) in
  (∀ service username password,
     let s1 := (add_password service username password s).2 in
     ∃ s2, restart s1 = (Return true, s2) ∧ passwords s2 = passwords s1) ∧
  (∀ service e,
     dict_get (str_lower service) (passwords s) = Some e →
     let s1 := (delete_password service s).2 in
     ∃ s2, restart s1 = (Return true, s2) ∧ passwords s2 = passwords s1) ∧
  (∀ service new_password e,
     dict_get (str_lower service) (passwords s) = Some e →
     let s1 := (update_password service new_password s).2 in
     ∃ s2, restart s1 = (Return true, s2) ∧ passwords s2 = passwords s1).
Proof.
  intros Hfernet Hutf Hjson Hc Hkf Hok Hmh Hwf Hw tty rnd dk restart.
  assert (Hgo : ∀ (x : State) tail_,
    cipher x = Some k → key_file x = Some k →
    master_hash_file x = Some (_hash_password master) →
    wf_dict (passwords x) → write_succeeds x →
    ∃ s2,
      restart (with_stdout (stdout (after_save x) ++ tail_) (after_save x))
      = (Return true, s2) ∧
      passwords s2
      = passwords (with_stdout (stdout (after_save x) ++ tail_) (after_save x))).
  { intros x tail_ Hcx Hkx Hmx Hwx Hwrite. unfold restart. simpl.
    destruct (after_save_frame x) as (_ & _ & Hpx & Hkfx & Hmhx & _).
    rewrite Hpx. eapply restart_on_saved; try done.
    - by rewrite Hkfx.
    - by rewrite Hmhx. }
  split; [|split].
  - intros service username password s1.
    destruct (add_password_run service username password s)
      as (pw & m & pre & _ & Hrun). simpl in Hrun.
    unfold s1. rewrite Hrun. simpl snd.
    apply Hgo; try done. by apply wf_dict_set.
  - intros service e Hg s1.
    unfold s1. rewrite (delete_password_found service e s Hg). simpl snd.
    apply Hgo; try done. by apply wf_dict_del.
  - intros service new_password e Hg s1.
    destruct (update_password_found service new_password e s Hg)
      as (pw & m & pre & _ & Hrun). simpl in Hrun.
    unfold s1. rewrite Hrun. simpl snd.
    apply Hgo; try done. by apply wf_dict_set.
Qed.

End restart.

(** ** The key file and the hash file are never replaced *)

Section secrets.
Context `{L : PyLib}.

Lemma secrets_kept_refl s : secrets_kept s s.
Proof. by split. Qed.

Lemma secrets_kept_trans s1 s2 s3 :
  secrets_kept s1 s2 → secrets_kept s2 s3 → secrets_kept s1 s3.
Proof. intros [Hk Hm] [Hk' Hm']. split; auto. Qed.

Lemma secrets_kept_same s s' :
  key_file s' = key_file s → master_hash_file s' = master_hash_file s →
  secrets_kept s s'.
Proof. intros Hk Hm. split; intros x Hx; congruence. Qed.

(** A run whose end state is known. *)
Lemma keeps_secrets_run {A} (m : M A) s r0 s0 :
  m s = (r0, s0) → secrets_kept s s0 → keeps_secrets m s.
Proof. intros Hm Hk r s' Hrun. rewrite Hm in Hrun. by injection Hrun as _ <-. Qed.

Lemma keeps_secrets_bind {A B} (m : M A) (f : A → M B) s :
  keeps_secrets m s →
  (∀ a s1, m s = (Return a, s1) → keeps_secrets (f a) s1) →
  keeps_secrets (m ≫= f) s.
Proof.
  intros Hm Hf r s' Hrun. unfold mbind, M_bind in Hrun.
  destruct (m s) as [[a|e] s1] eqn:Hms.
  - eapply secrets_kept_trans; [by eapply Hm | by eapply Hf].
  - injection Hrun as _ <-. by eapply Hm.
Qed.

Lemma initialize_encryption_keeps s : keeps_secrets _initialize_encryption s.
Proof.
  intros r s' Hrun. unfold _initialize_encryption in Hrun.
  rewrite (bind_Return get_state _ s s s) in Hrun; [|done].
  unfold mbind, M_bind, mret, M_ret, modify, urandom, raise in Hrun.
  destruct (key_file s) as [k|] eqn:Hf.
  - destruct (Fernet_key_ok k); injection Hrun as _ <-;
      by apply secrets_kept_same.
  - destruct (Fernet_key_ok _); injection Hrun as _ <-;
      (split; [by rewrite Hf | done]).
Qed.

Lemma load_passwords_keeps s : keeps_secrets _load_passwords s.
Proof.
  destruct (load_returns s) as (d & out & Hrun).
  eapply keeps_secrets_run; [exact Hrun|]. by apply secrets_kept_same.
Qed.

Lemma unlock_keeps t :
  keeps_secrets (_initialize_encryption;;
                 d ← _load_passwords;
                 modify (with_passwords d);;
                 mret true) t.
Proof.
  apply keeps_secrets_bind; [apply initialize_encryption_keeps|].
  intros _ t1 _.
  apply keeps_secrets_bind; [apply load_passwords_keeps|].
  intros d t2 _. eapply keeps_secrets_run; [reflexivity|].
  by apply secrets_kept_same.
Qed.

Lemma setup_master_password_keeps s : keeps_secrets setup_master_password s.
Proof.
  destruct (master_hash_file s) as [h|] eqn:Hm;
    destruct (tty_in s) as [|a tl] eqn:Ht.
  - eapply (keeps_secrets_run _ _ (Raise EOFError) s);
      [|apply secrets_kept_refl].
    unfold setup_master_password.
    rewrite (bind_Return get_state _ s s s); [|done]. rewrite Hm.
    unfold mbind, M_bind, _load_master_hash, getpass. by rewrite Hm, Ht.
  - intros r s'. rewrite (setup_verify_prefix s h a tl Hm Ht).
    destruct (decide (_hash_password a ≠ h)).
    + intros [= _ <-]. by apply secrets_kept_same.
    + intros Hrun. apply unlock_keeps in Hrun.
      eapply secrets_kept_trans; [|exact Hrun]. by apply secrets_kept_same.
  - eapply (keeps_secrets_run _ _ (Raise EOFError)).
    + unfold setup_master_password.
      rewrite (bind_Return get_state _ s s s); [|done]. rewrite Hm.
      unfold mbind, M_bind, print, modify, getpass. simpl. rewrite Ht.
      reflexivity.
    + by apply secrets_kept_same.
  - destruct tl as [|b rest].
    + eapply (keeps_secrets_run _ _ (Raise EOFError)).
      * unfold setup_master_password.
        rewrite (bind_Return get_state _ s s s); [|done]. rewrite Hm.
        unfold mbind, M_bind, print, modify, getpass. simpl. rewrite Ht.
        reflexivity.
      * by apply secrets_kept_same.
    + destruct (decide (a = b)) as [<-|Hne].
      * intros r s'. rewrite (setup_create_prefix s a rest Hm Ht).
        intros Hrun. apply unlock_keeps in Hrun.
        eapply secrets_kept_trans; [|exact Hrun].
        split; [done|]. intros h Hh. congruence.
      * eapply keeps_secrets_run;
          [by apply (setup_mismatch_run s a b rest)|].
        by apply secrets_kept_same.
Qed.

(** X11. The start and the operations on the vault do not replace or
    remove a key file or a master hash file that exists, however they end.
    This holds for [setup_master_password], which writes them only where
    there is none, for [_initialize_encryption], [_load_passwords] and
    [_save_passwords], and for [generate_password], [add_password],
    [get_password], [list_services], [delete_password], [search] and
    [update_password]. It is not said of the two other methods that write
    files: [_save_master_hash] writes the hash file whenever it is called,
    and [export_passwords] writes the file its path names. *)
Theorem vault_operations_keep_secret_files (s : State) :
  keeps_secrets setup_master_password s ∧
  keeps_secrets _initialize_encryption s ∧
  keeps_secrets _load_passwords s ∧
  keeps_secrets _save_passwords s ∧
  (∀ length use_symbols use_numbers,
     keeps_secrets (generate_password length use_symbols use_numbers) s) ∧
  (∀ service username password,
     keeps_secrets (add_password service username password) s) ∧
  (∀ service, keeps_secrets (get_password service) s) ∧
  keeps_secrets list_services s ∧
  (∀ service, keeps_secrets (delete_password service) s) ∧
  (∀ query, keeps_secrets (search query) s) ∧
  (∀ service new_password,
     keeps_secrets (update_password service new_password) s).
Proof.
  assert (Hsave : ∀ x tail_,
    secrets_kept x (with_stdout (stdout (after_save x) ++ tail_) (after_save x))).
  { intros x tail_. destruct (after_save_frame x) as (_ & _ & _ & Hk & Hm & _).
    by apply secrets_kept_same. }
  split; [apply setup_master_password_keeps|].
  split; [apply initialize_encryption_keeps|].
  split; [apply load_passwords_keeps|].
  split.
  { eapply keeps_secrets_run; [apply save_returns|].
    destruct (after_save_frame s) as (_ & _ & _ & Hk & Hm & _).
    by apply secrets_kept_same. }
  split.
  { intros length use_symbols use_numbers.
    destruct (generate_password_run length use_symbols use_numbers s)
      as (out & s' & Hrun & _ & _ & _ & _ & _ & _ & m & _ & -> & _).
    eapply keeps_secrets_run; [exact Hrun|]. by apply secrets_kept_same. }
  split.
  { intros service username password.
    destruct (add_password_run service username password s)
      as (pw & m & pre & _ & Hrun). simpl in Hrun.
    eapply keeps_secrets_run; [exact Hrun|].
    eapply secrets_kept_trans; [|apply Hsave]. by apply secrets_kept_same. }
  split.
  { intros service. eapply keeps_secrets_run; [apply get_password_run|].
    apply secrets_kept_refl. }
  split.
  { eapply keeps_secrets_run; [apply list_services_run|].
    by apply secrets_kept_same. }
  split.
  { intros service.
    destruct (dict_get (str_lower service) (passwords s)) as [e|] eqn:Hg.
    - eapply keeps_secrets_run; [by apply (delete_password_found service e)|].
      eapply secrets_kept_trans; [|apply Hsave]. by apply secrets_kept_same.
    - eapply keeps_secrets_run; [by apply delete_password_missing|].
      by apply secrets_kept_same. }
  split.
  { intros query. destruct (search_run query s) as [out Hrun].
    eapply keeps_secrets_run; [exact Hrun|]. by apply secrets_kept_same. }
  intros service new_password.
  destruct (dict_get (str_lower service) (passwords s)) as [e|] eqn:Hg.
  - destruct (update_password_found service new_password e s Hg)
      as (pw & m & pre & _ & Hrun). simpl in Hrun.
    eapply keeps_secrets_run; [exact Hrun|].
    eapply secrets_kept_trans; [|apply Hsave]. by apply secrets_kept_same.
  - eapply keeps_secrets_run; [by apply update_password_missing|].
    by apply secrets_kept_same.
Qed.

End secrets.

(** ** The export *)

Section export.
Context `{L : PyLib} `{T : PyText}.

Lemma lift_run {A} (m : M A) (w : Process) r s' :
  m (pm w) = (r, s') → lift m w = (r, mkProcess s' (directory w)).
Proof. intros Hm. unfold lift. by rewrite Hm. Qed.

Lemma wbind_Return {A B} (m : W A) (f : A → W B) w a w' :
  m w = (Return a, w') → (m ≫= f) w = f a w'.
Proof. intros Hm. unfold mbind, W_bind. by rewrite Hm. Qed.

Lemma wbind_Raise {A B} (m : W A) (f : A → W B) w e w' :
  m w = (Raise e, w') → (m ≫= f) w = (Raise e, w').
Proof. intros Hm. unfold mbind, W_bind. by rewrite Hm. Qed.

Lemma input_run prompt s line rest :
  tty_in s = line :: rest →
  input prompt s
  = (Return line, with_tty_in rest (with_stdout (stdout s ++ [prompt]) s)).
Proof. intros Ht. unfold input. simpl. by rewrite Ht. Qed.

Lemma input_eof prompt s :
  tty_in s = [] →
  input prompt s = (Raise EOFError, with_stdout (stdout s ++ [prompt]) s).
Proof. intros Ht. unfold input. simpl. by rewrite Ht. Qed.

(** X12. [export_passwords] writes only after a typed [yes], in any
    letter case. On any other answer it prints that the export is
    cancelled: no file is written or changed, and the vault is as it was. *)
Theorem export_needs_confirmation
    (w : Process) (filename confirm : string) (rest : list string) :
  tty_in (pm w) = confirm :: rest → str_lower confirm ≠ "yes" →
  export_passwords filename w
  = (Return (),
     mkProcess
       (with_tty_in rest
          (with_stdout
             (stdout (pm w)
              ++ ["⚠️  This will export passwords unencrypted. Continue? (yes/no): ";
                  "Export cancelled"])
             (pm w)))
       (directory w)).
Proof.
  intros Ht Hno. unfold export_passwords.
  rewrite (wbind_Return _ _ _ _ _ (lift_run _ _ _ _ (input_run _ _ _ _ Ht))).
  rewrite decide_True; [|done].
  unfold lift, print, modify. simpl. rewrite <- app_assoc. reflexivity.
Qed.

(** X13. After a typed [yes], [export_passwords] writes the vault to the
    file the path names as the text [json.dumps] gives, not encrypted: under
    the law of [json], [json.loads] reads the whole vault back from the file
    without any key. The vault in memory, the vault file, the key file and
    the hash file are not touched. This is for a path that can be opened and
    names none of the three files of the object, however it is spelled. *)
Theorem export_writes_plaintext
    (w : Process) (filename confirm file : string) (rest : list string) :
  tty_in (pm w) = confirm :: rest → str_lower confirm = "yes" →
  path_file filename = Some file →
  path_file ".secret.key" ≠ Some file →
  path_file "passwords.enc" ≠ Some file →
  path_file ".master.hash" ≠ Some file →
  ∃ w',
    export_passwords filename w = (Return (), w') ∧
    directory w' = <[file := json_dumps (passwords (pm w))]> (directory w) ∧
    directory w' !! file = Some (json_dumps (passwords (pm w))) ∧
    (loads_dumps_law → wf_dict (passwords (pm w)) →
     ∃ text, directory w' !! file = Some text ∧
             json_loads text = Some (passwords (pm w))) ∧
    passwords (pm w') = passwords (pm w) ∧
    data_file (pm w') = data_file (pm w) ∧
    key_file (pm w') = key_file (pm w) ∧
    master_hash_file (pm w') = master_hash_file (pm w) ∧
    tty_in (pm w') = rest ∧
    stdout (pm w')
    = stdout (pm w)
      ++ ["⚠️  This will export passwords unencrypted. Continue? (yes/no): ";
          "✓ Passwords exported to " +:+ filename;
          "⚠️  Keep this file secure and delete it after use!"].
Proof.
  intros Ht Hyes Hfile Hn1 Hn2 Hn3. unfold export_passwords.
  rewrite (wbind_Return _ _ _ _ _ (lift_run _ _ _ _ (input_run _ _ _ _ Ht))).
  rewrite decide_False; [|by intros ?].
  unfold mbind, W_bind, lift, get_state, write_text_file, print, modify.
  simpl. rewrite Hfile. rewrite !decide_False by done. simpl.
  eexists. split; [reflexivity|]. simpl.
  split; [done|]. split; [apply lookup_insert_eq|]. split.
  - intros Hlaw Hwf. eexists. split; [apply lookup_insert_eq|]. by apply Hlaw.
  - do 5 (split; [done|]). by rewrite <- !app_assoc.
Qed.


End export.

(** ** The menu *)

Section menu.
Context `{L : PyLib} `{T : PyText}.


Lemma main_body_read_run s c rest :
  tty_in s = c :: rest →
  main_body_read s
  = (Return (str_strip c),
     with_tty_in rest (with_stdout (stdout s ++ menu_lines) s)).
Proof.
  intros Ht. unfold main_body_read, mbind, M_bind, print, modify, input,
    mret, M_ret. simpl. rewrite Ht. f_equal.
  destruct s. simpl. by rewrite <- !app_assoc.
Qed.

Lemma main_body_read_eof s :
  tty_in s = [] →
  main_body_read s
  = (Raise EOFError, with_stdout (stdout s ++ menu_lines) s).
Proof.
  intros Ht. unfold main_body_read, mbind, M_bind, print, modify, input,
    mret, M_ret. simpl. rewrite Ht. f_equal.
  destruct s. simpl. by rewrite <- !app_assoc.
Qed.

(** A round of the menu: the menu is written, a line is read, and the
    chain of tests runs on the stripped line. *)
Lemma main_body_run (w : Process) c rest :
  tty_in (pm w) = c :: rest →
  main_body w
  = main_dispatch (str_strip c)
      (mkProcess
         (with_tty_in rest (with_stdout (stdout (pm w) ++ menu_lines) (pm w)))
         (directory w)).
Proof.
  intros Ht. unfold main_body.
  by rewrite (wbind_Return _ _ _ _ _
                (lift_run _ _ _ _ (main_body_read_run _ _ _ Ht))).
Qed.

Lemma main_body_eof (w : Process) :
  tty_in (pm w) = [] →
  main_body w
  = (Raise EOFError,
     mkProcess (with_stdout (stdout (pm w) ++ menu_lines) (pm w))
       (directory w)).
Proof.
  intros Ht. unfold main_body.
  by rewrite (wbind_Raise _ _ _ _ _
                (lift_run _ _ _ _ (main_body_read_eof _ Ht))).
Qed.

(** X14. Leaving and mistyping. On the choice [9] (blanks around it do not
    matter) a round of the menu prints the farewell and ends the loop; on a
    line that is none of [1] to [9] it prints that the choice is invalid and
    the loop goes on. Either way nothing but the output changes: the vault,
    the files and the lines still to be typed are as they were. *)
Theorem menu_exit_and_unknown (w : Process) (c : string) (rest : list string) :
  tty_in (pm w) = c :: rest →
  (str_strip c = "9" →
   main_body w
   = (Return false,
      mkProcess
        (with_stdout
           (stdout (pm w) ++ menu_lines
            ++ [nl +:+ "🔒 Passwords saved securely. Goodbye!"])
           (with_tty_in rest (pm w)))
        (directory w))) ∧
  (str_strip c ∉ ["1"; "2"; "3"; "4"; "5"; "6"; "7"; "8"; "9"] →
   main_body w
   = (Return true,
      mkProcess
        (with_stdout
           (stdout (pm w) ++ menu_lines
            ++ ["❌ Invalid choice! Please try again."])
           (with_tty_in rest (pm w)))
        (directory w))).
Proof.
  intros Ht. rewrite (main_body_run w c rest Ht). split.
  - intros ->. unfold main_dispatch.
    repeat (rewrite decide_False by done). rewrite decide_True by done.
    unfold mbind, W_bind, lift, print, modify, mret, W_ret. simpl.
    do 2 f_equal. by rewrite <- app_assoc.
  - intros Hnot. unfold main_dispatch.
    repeat (rewrite decide_False
              by (intros Heq; apply Hnot; rewrite Heq;
                  repeat (first [apply list_elem_of_here
                                |apply list_elem_of_further]))).
    unfold mbind, W_bind, lift, print, modify, mret, W_ret. simpl.
    do 2 f_equal. by rewrite <- app_assoc.
Qed.



(** [add_password] without a password, run. *)
Lemma add_generated_run (s : State) (service username : string) :
  ∃ pw s',
    add_password service username None s = (Return (), s') ∧
    String.length pw = 16 ∧
    dict_get (str_lower service) (passwords s')
    = Some (Entry.mk service username pw) ∧
    tty_in s' = tty_in s.
Proof.
  destruct (default_password_run s) as (pw & m & Hgen & Hlen & _).
  set (s0 := with_stdout
               (stdout s ++ [nl +:+ "🔑 Generated password: " +:+ pw])
               (with_drawn m s)).
  assert (Hch :
    (password ← generate_password 16 true true;
     print (nl +:+ "🔑 Generated password: " +:+ password);;
     mret password) s = (Return pw, s0))
    by by rewrite (bind_Return _ _ _ _ _ Hgen).
  exists pw. eexists. split.
  - apply (add_password_with service username None pw s s0 Hch).
  - split; [done|]. cbn [passwords tty_in with_stdout].
    match goal with |- context [after_save ?x] =>
      destruct (after_save_frame x) as (_ & _ & Hp & _ & _ & Hti & _) end.
    rewrite Hp, Hti. split; [apply dict_get_set | done].
Qed.

(** The statements under choice [1] when a generated password is asked
    for, run on the object. *)
Lemma add_branch_run (s : State) (service username g len : string) rest :
  tty_in s = service :: username :: g :: len :: rest →
  str_lower g = "y" →
  (service ← input "Service name (e.g., Gmail, Facebook): ";
   username ← input "Username/Email: ";
   use_gen ← input "Generate password? (y/n): ";
   let use_gen := str_lower use_gen in
   if decide (use_gen = "y") then
     length ← input "Password length (default 16): ";
     length ← (if decide (length = EmptyString) then mret 16%Z
               else match int_of_str length with
                    | Some n => mret n
                    | None => raise ValueError
                    end);
     add_password service username None
   else
     pwd ← getpass;
     add_password service username (Some pwd)) s
  = (length ← (if decide (len = EmptyString) then mret 16%Z
               else match int_of_str len with
                    | Some n => mret n
                    | None => raise ValueError
                    end);
     add_password service username None)
      (with_tty_in rest
         (with_stdout
            (stdout s
             ++ ["Service name (e.g., Gmail, Facebook): "; "Username/Email: ";
                 "Generate password? (y/n): ";
                 "Password length (default 16): "])
            s)).
Proof.
  intros Ht Hg.
  rewrite (bind_Return _ _ _ _ _ (input_run _ s service _ Ht)).
  erewrite (bind_Return (input _)); [|by apply input_run].
  erewrite (bind_Return (input _)); [|by apply input_run].
  cbv zeta. rewrite decide_True by done.
  erewrite (bind_Return (input _)); [|by apply input_run].
  f_equal. destruct s. simpl. by rewrite <- !app_assoc.
Qed.

(** X16. The length typed under choice [1] is not used. When a generated
    password is asked for, the length is read and converted, and then
    [add_password] is called without it: for an empty line or any number,
    the stored password has 16 characters. A line that is not a number ends
    the round with the [ValueError] of [int], before anything is added or
    saved. *)
Theorem menu_add_ignores_length
    (w : Process) (c service username g len : string) (rest : list string) :
  tty_in (pm w) = c :: service :: username :: g :: len :: rest →
  str_strip c = "1" → str_lower g = "y" →
  ((len = EmptyString ∨ ∃ n, int_of_str len = Some n) →
   ∃ pw w',
     main_body w = (Return true, w') ∧
     String.length pw = 16 ∧
     dict_get (str_lower service) (passwords (pm w'))
     = Some (Entry.mk service username pw) ∧
     tty_in (pm w') = rest) ∧
  (len ≠ EmptyString → int_of_str len = None →
   ∃ w',
     main_body w = (Raise ValueError, w') ∧
     passwords (pm w') = passwords (pm w) ∧
     data_file (pm w') = data_file (pm w) ∧
     tty_in (pm w') = rest).
Proof.
  intros Ht Hc Hg. rewrite (main_body_run w c _ Ht), Hc.
  unfold main_dispatch. rewrite decide_True by done.
  set (s1 := with_tty_in (service :: username :: g :: len :: rest)
               (with_stdout (stdout (pm w) ++ menu_lines) (pm w))).
  pose proof (add_branch_run s1 service username g len rest eq_refl Hg)
    as Hrun.
  set (s4 := with_tty_in rest _) in Hrun.
  assert (Hfacts : passwords s4 = passwords (pm w) ∧
                   data_file s4 = data_file (pm w) ∧ tty_in s4 = rest)
    by done.
  destruct Hfacts as (Hp4 & Hd4 & Ht4). clearbody s4.
  split.
  - intros Hlen.
    destruct (add_generated_run s4 service username)
      as (pw & s' & Hadd & Hpw & Hget & Hti).
    assert (Hconv : ∃ n : Z,
      (if decide (len = EmptyString) then mret 16%Z
       else match int_of_str len with
            | Some n => mret n
            | None => raise ValueError
            end) s4 = (Return n, s4)).
    { destruct (decide (len = EmptyString)) as [?|Hnonempty];
        [by exists 16%Z|].
      destruct Hlen as [?|[z Hz]]; [done|]. rewrite Hz. by exists z. }
    destruct Hconv as [n Hconv].
    rewrite (bind_Return _ _ _ _ _ Hconv), Hadd in Hrun.
    exists pw. eexists. split.
    + unfold mbind at 1. unfold W_bind at 1.
      erewrite lift_run; [|exact Hrun].
      reflexivity.
    + cbn [pm]. rewrite Hti, Ht4. by repeat split.
  - intros Hne Hnone.
    assert (Hconv :
      (if decide (len = EmptyString) then mret 16%Z
       else match int_of_str len with
            | Some n => mret n
            | None => raise ValueError
            end) s4 = (Raise ValueError, s4)).
    { rewrite decide_False by done. by rewrite Hnone. }
    rewrite (bind_Raise _ _ _ _ _ Hconv) in Hrun.
    eexists. split.
    + unfold mbind at 1. unfold W_bind at 1.
      erewrite lift_run; [|exact Hrun].
      reflexivity.
    + cbn [pm]. by repeat split.
Qed.

(** How [main] starts: the object is made, the banner printed, and the
    master password dealt with. *)
Lemma main_start_run (s : State) :
  (__init__;;
   print (str_mul "=" 50);;
   print "🔐 SECURE PASSWORD MANAGER";;
   print (str_mul "=" 50);;
   setup_master_password) s
  = setup_master_password
      (with_stdout
         (stdout s ++ [str_mul "=" 50; "🔐 SECURE PASSWORD MANAGER";
                       str_mul "=" 50])
         (with_passwords [] (with_cipher None (with_key None s)))).
Proof.
  unfold mbind at 1. unfold M_bind at 1. unfold __init__ at 1.
  unfold modify at 1. cbv beta iota.
  unfold mbind at 1. unfold M_bind at 1. unfold print at 1.
  unfold modify at 1. cbv beta iota.
  unfold mbind at 1. unfold M_bind at 1. unfold print at 1.
  unfold modify at 1. cbv beta iota.
  unfold mbind at 1. unfold M_bind at 1. unfold print at 1.
  unfold modify at 1. cbv beta iota.
  f_equal. destruct s. simpl. by rewrite <- !app_assoc.
Qed.

(** X17. A master password that is not accepted ends [main] before the
    menu: a typed line whose hash differs from the stored one, or at a first
    start two lines that differ. [main] returns normally after the banner and
    the rejection, however many rounds it is allowed; no further line is
    read, the vault is not loaded, no cipher is made, and the files and the
    directory are as they were. *)
Theorem main_stops_at_rejected_password
    (w : Process) (first : string) (more : list string) (fuel : nat) :
  tty_in (pm w) = first :: more →
  match master_hash_file (pm w), more with
  | Some stored, _ => _hash_password first ≠ stored
  | None, second :: _ => first ≠ second
  | None, [] => False
  end →
  ∃ w',
    main fuel w = Some (Return (), w') ∧
    tty_in (pm w')
    = match master_hash_file (pm w) with
      | Some _ => more
      | None => tail more
      end ∧
    stdout (pm w')
    = stdout (pm w)
      ++ [str_mul "=" 50; "🔐 SECURE PASSWORD MANAGER"; str_mul "=" 50]
      ++ match master_hash_file (pm w) with
         | Some _ => ["❌ Incorrect master password!"]
         | None => ["First time setup - Create a master password";
                    "❌ Passwords don't match!"]
         end ∧
    passwords (pm w') = [] ∧ cipher (pm w') = None ∧ key (pm w') = None ∧
    key_file (pm w') = key_file (pm w) ∧
    data_file (pm w') = data_file (pm w) ∧
    master_hash_file (pm w') = master_hash_file (pm w) ∧
    directory w' = directory w.
Proof.
  intros Ht Hrej. unfold main.
  set (s0 := with_stdout
               (stdout (pm w)
                ++ [str_mul "=" 50; "🔐 SECURE PASSWORD MANAGER";
                    str_mul "=" 50])
               (with_passwords [] (with_cipher None (with_key None (pm w))))).
  destruct (master_hash_file (pm w)) as [stored|] eqn:Hm.
  - assert (Hrun : setup_master_password s0
                   = (Return false,
                      with_stdout (stdout s0 ++ ["❌ Incorrect master password!"])
                        (with_tty_in more s0))).
    { rewrite (setup_verify_prefix s0 stored first more); [|done|done].
      by rewrite decide_True. }
    erewrite lift_run; [|rewrite main_start_run; exact Hrun].
    eexists. split; [reflexivity|]. cbn [pm directory].
    unfold s0. simpl. rewrite <- !app_assoc. by repeat split.
  - destruct more as [|second rest]; [done|].
    assert (Hrun := setup_mismatch_run s0 first second rest Hm Ht Hrej).
    erewrite lift_run; [|rewrite main_start_run; exact Hrun].
    eexists. split; [reflexivity|]. cbn [pm directory].
    unfold s0. simpl. rewrite <- !app_assoc. by repeat split.
Qed.

End menu.

(** ** The loop ends *)

Section termination.
Context `{L : PyLib} `{T : PyText}.

Lemma reads_only_ret {A} (a : A) s : reads_only (mret a) s.
Proof. intros r s' Heq. unfold mret, M_ret in Heq. by simplify_eq. Qed.

Lemma reads_only_raise {A} (e : exn) s : reads_only (@raise A e) s.
Proof. intros r s' Heq. unfold raise in Heq. by simplify_eq. Qed.

Lemma reads_only_get_state s : reads_only get_state s.
Proof. intros r s' Heq. unfold get_state in Heq. by simplify_eq. Qed.

Lemma reads_only_modify (f : State → State) s :
  tty_in (f s) = tty_in s → reads_only (modify f) s.
Proof.
  intros Hf r s' Heq. unfold modify in Heq. simplify_eq. by rewrite Hf.
Qed.

Lemma reads_only_bind {A B} (m : M A) (f : A → M B) s :
  reads_only m s → (∀ a s1, reads_only (f a) s1) → reads_only (m ≫= f) s.
Proof.
  intros Hm Hf r s' Heq. unfold mbind, M_bind in Heq.
  destruct (m s) as [[a|e] s1] eqn:Hms.
  - specialize (Hm _ _ Hms). specialize (Hf a s1 _ _ Heq). lia.
  - simplify_eq. by apply (Hm _ _ Hms).
Qed.

Lemma reads_only_try {A} (body : M A) (handler : exn → M A) s :
  reads_only body s → (∀ e s1, reads_only (handler e) s1) →
  reads_only (try_except body handler) s.
Proof.
  intros Hm Hf r s' Heq. unfold try_except in Heq.
  destruct (body s) as [[a|e] s1] eqn:Hms.
  - simplify_eq. by apply (Hm _ _ Hms).
  - specialize (Hm _ _ Hms). specialize (Hf e s1 _ _ Heq). lia.
Qed.

Lemma reads_only_print line s : reads_only (print line) s.
Proof. by apply reads_only_modify. Qed.

Lemma reads_only_input prompt s : reads_only (input prompt) s.
Proof.
  intros r s' Heq. unfold input in Heq. simpl in Heq.
  destruct (tty_in s) as [|line rest] eqn:Ht; simplify_eq; simpl.
  - by rewrite Ht.
  - lia.
Qed.

Lemma reads_only_getpass s : reads_only getpass s.
Proof.
  intros r s' Heq. unfold getpass in Heq.
  destruct (tty_in s) as [|line rest] eqn:Ht; simplify_eq; simpl.
  - by rewrite Ht.
  - lia.
Qed.

Lemma reads_only_urandom s : reads_only urandom s.
Proof. intros r s' Heq. unfold urandom in Heq. by simplify_eq. Qed.

Lemma reads_only_choice {A} (seq : list A) s : reads_only (choice seq) s.
Proof.
  unfold choice. destruct seq as [|a seq]; [apply reads_only_raise|].
  apply reads_only_bind; [apply reads_only_urandom|]. intros r s1.
  destruct (_ !! _); [apply reads_only_ret | apply reads_only_raise].
Qed.

Lemma reads_only_shuffle {A} (x : list A) s : reads_only (shuffle x) s.
Proof.
  unfold shuffle. generalize (length x - 1). intros i. revert x s.
  induction i as [|i IH]; intros x s; simpl; [apply reads_only_ret|].
  apply reads_only_bind; [apply reads_only_urandom|]. intros r s1. apply IH.
Qed.

Lemma reads_only_for_range {A} (n : nat) (body : A → M A) (acc : A) s :
  (∀ a s1, reads_only (body a) s1) → reads_only (for_range n body acc) s.
Proof.
  intros Hb. revert acc s.
  induction n as [|n IH]; intros acc s; simpl; [apply reads_only_ret|].
  apply reads_only_bind; [apply Hb|]. intros a s1. apply IH.
Qed.

Lemma reads_only_for_each {A} (xs : list A) (body : A → M unit) s :
  (∀ a s1, reads_only (body a) s1) → reads_only (for_each xs body) s.
Proof.
  intros Hb. revert s.
  induction xs as [|x xs IH]; intros s; simpl; [apply reads_only_ret|].
  apply reads_only_bind; [apply Hb|]. intros a s1. apply IH.
Qed.

Lemma reads_only_write_data_file b s : reads_only (write_data_file b) s.
Proof.
  intros r s' Heq. unfold write_data_file in Heq.
  destruct (disk s) as [|[| |kept] later]; by simplify_eq.
Qed.

Lemma reads_only_load_master_hash s : reads_only _load_master_hash s.
Proof.
  intros r s' Heq. unfold _load_master_hash in Heq.
  destruct (master_hash_file s); by simplify_eq.
Qed.

Ltac reads_only_step :=
  first
    [ apply reads_only_ret | apply reads_only_raise
    | apply reads_only_get_state | apply reads_only_print
    | apply reads_only_input | apply reads_only_getpass
    | apply reads_only_urandom | apply reads_only_choice
    | apply reads_only_shuffle | apply reads_only_write_data_file
    | apply reads_only_load_master_hash
    | apply reads_only_modify; reflexivity
    | apply reads_only_bind; [|intros ??]
    | apply reads_only_try; [|intros ??]
    | apply reads_only_for_range; intros ??
    | apply reads_only_for_each; intros ??
    | match goal with
      | |- reads_only (match ?x with _ => _ end) _ => destruct x
      | |- reads_only (if ?x then _ else _) _ => destruct x
      end
    | progress cbv beta zeta ].

Lemma reads_only_initialize_encryption s : reads_only _initialize_encryption s.
Proof. unfold _initialize_encryption. repeat reads_only_step. Qed.

Lemma reads_only_load_passwords s : reads_only _load_passwords s.
Proof. unfold _load_passwords. repeat reads_only_step. Qed.

Lemma reads_only_save_passwords s : reads_only _save_passwords s.
Proof. unfold _save_passwords. repeat reads_only_step. Qed.

Lemma reads_only_save_master_hash p s : reads_only (_save_master_hash p) s.
Proof. unfold _save_master_hash. repeat reads_only_step. Qed.

Lemma reads_only_setup_master_password s : reads_only setup_master_password s.
Proof.
  unfold setup_master_password.
  repeat first [ apply reads_only_initialize_encryption
               | apply reads_only_load_passwords
               | apply reads_only_save_master_hash
               | reads_only_step ].
Qed.

Lemma reads_only_generate_password n sy nu s :
  reads_only (generate_password n sy nu) s.
Proof. unfold generate_password. repeat reads_only_step. Qed.

Lemma reads_only_add_password service username password s :
  reads_only (add_password service username password) s.
Proof.
  unfold add_password.
  repeat first [ apply reads_only_generate_password
               | apply reads_only_save_passwords | reads_only_step ].
Qed.

Lemma reads_only_get_password service s : reads_only (get_password service) s.
Proof. unfold get_password. repeat reads_only_step. Qed.

Lemma reads_only_delete_password service s :
  reads_only (delete_password service) s.
Proof.
  unfold delete_password.
  repeat first [ apply reads_only_save_passwords | reads_only_step ].
Qed.

Lemma reads_only_list_services s : reads_only list_services s.
Proof. unfold list_services. repeat reads_only_step. Qed.

Lemma reads_only_search query s : reads_only (search query) s.
Proof. unfold search. repeat reads_only_step. Qed.

Lemma reads_only_update_password service new_password s :
  reads_only (update_password service new_password) s.
Proof.
  unfold update_password.
  repeat first [ apply reads_only_generate_password
               | apply reads_only_save_passwords | reads_only_step ].
Qed.

Lemma reads_only_W_ret {A} (a : A) w : reads_only_W (mret a) w.
Proof. intros r w' Heq. unfold mret, W_ret in Heq. by simplify_eq. Qed.

Lemma reads_only_W_bind {A B} (m : W A) (f : A → W B) w :
  reads_only_W m w → (∀ a w1, reads_only_W (f a) w1) →
  reads_only_W (m ≫= f) w.
Proof.
  intros Hm Hf r w' Heq. unfold mbind, W_bind in Heq.
  destruct (m w) as [[a|e] w1] eqn:Hmw.
  - specialize (Hm _ _ Hmw). specialize (Hf a w1 _ _ Heq). lia.
  - simplify_eq. by apply (Hm _ _ Hmw).
Qed.

Lemma reads_only_W_lift {A} (m : M A) w :
  (∀ s, reads_only m s) → reads_only_W (lift m) w.
Proof.
  intros Hm r w' Heq. unfold lift in Heq.
  destruct (m (pm w)) as [r0 s'] eqn:Hms. simplify_eq. simpl.
  by apply (Hm _ _ _ Hms).
Qed.

Lemma reads_only_W_write_text_file filename text w :
  reads_only_W (write_text_file filename text) w.
Proof.
  intros r w' Heq. unfold write_text_file in Heq.
  destruct (path_file filename) as [file|]; [|by simplify_eq].
  repeat case_decide; by simplify_eq.
Qed.

Lemma reads_only_W_export_passwords filename w :
  reads_only_W (export_passwords filename) w.
Proof.
  unfold export_passwords.
  apply reads_only_W_bind;
    [apply reads_only_W_lift; intros s; apply reads_only_input|].
  intros confirm w1. case_decide.
  - apply reads_only_W_lift. intros s. apply reads_only_print.
  - apply reads_only_W_bind;
      [apply reads_only_W_lift; intros s; apply reads_only_get_state|].
    intros s w2.
    apply reads_only_W_bind; [apply reads_only_W_write_text_file|].
    intros _ w3.
    apply reads_only_W_bind;
      [apply reads_only_W_lift; intros s'; apply reads_only_print|].
    intros _ w4. apply reads_only_W_lift. intros s'. apply reads_only_print.
Qed.

(** Whatever the choice, the statements under it only read. *)
Lemma reads_only_W_main_dispatch c w : reads_only_W (main_dispatch c) w.
Proof.
  unfold main_dispatch.
  repeat case_decide;
    (apply reads_only_W_bind; [|intros ??; apply reads_only_W_ret]);
    try apply reads_only_W_export_passwords;
    apply reads_only_W_lift; intros s;
    repeat first [ apply reads_only_add_password
                 | apply reads_only_get_password
                 | apply reads_only_list_services
                 | apply reads_only_search
                 | apply reads_only_update_password
                 | apply reads_only_delete_password
                 | apply reads_only_generate_password
                 | reads_only_step ].
Qed.

(** A round that does not raise has read at least the choice. *)
Lemma main_body_consumes w b w' :
  main_body w = (Return b, w') →
  length (tty_in (pm w')) < length (tty_in (pm w)).
Proof.
  intros Hrun. destruct (tty_in (pm w)) as [|c rest] eqn:Ht.
  - by rewrite (main_body_eof w Ht) in Hrun.
  - rewrite (main_body_run w c rest Ht) in Hrun.
    apply reads_only_W_main_dispatch in Hrun. simpl in *. lia.
Qed.

Lemma main_loop_ends (fuel : nat) (w : Process) :
  length (tty_in (pm w)) < fuel → ∃ r, main_loop fuel w = Some r.
Proof.
  revert w. induction fuel as [|fuel IH]; intros w Hlen; [lia|].
  simpl. destruct (main_body w) as [[[|]|e] w'] eqn:Hrun; [|by eexists..].
  apply IH. apply main_body_consumes in Hrun. lia.
Qed.

Lemma main_loop_more_fuel (fuel fuel' : nat) (w : Process) r :
  main_loop fuel w = Some r → fuel ≤ fuel' → main_loop fuel' w = Some r.
Proof.
  revert fuel' w. induction fuel as [|fuel IH]; intros fuel' w; [done|].
  destruct fuel' as [|fuel']; [lia|]. simpl.
  destruct (main_body w) as [[[|]|e] w']; [|done..].
  intros Hr Hle. apply IH; [done|lia].
Qed.

(** X18. [main] ends on every finite input. The loop is modelled with a
    bound on its rounds. No statement of the program puts a line back, and a
    round that goes on has read at least its choice; so with more rounds
    allowed than lines are left to type, [main] ends within the bound, and
    allowing more rounds does not change the result. *)
Theorem main_ends (fuel : nat) (w : Process) :
  length (tty_in (pm w)) < fuel →
  ∃ r, main fuel w = Some r ∧ ∀ fuel', fuel ≤ fuel' → main fuel' w = Some r.
Proof.
  intros Hlen. unfold main.
  destruct (lift _ w) as [[[|]|e] w1] eqn:Hstart;
    [|by eexists; split; [reflexivity|]..].
  apply reads_only_W_lift in Hstart; last first.
  { intros s.
    repeat first [ apply reads_only_setup_master_password
                 | reads_only_step ]. }
  destruct (lift (print _) w1) as [[[]|e] w2] eqn:Hgranted;
    [|by eexists; split; [reflexivity|]].
  apply reads_only_W_lift in Hgranted;
    [|intros s; apply reads_only_print].
  destruct (main_loop_ends fuel w2) as [r Hr]; [lia|].
  exists r. split; [done|]. intros fuel' Hle.
  by apply (main_loop_more_fuel fuel).
Qed.

End termination.

(** ** Runs of the further properties *)

Section more_runs.
#[local] Existing Instance Toy.lib.
#[local] Existing Instance ToyText.text.


Lemma first_setup_creates_master_witness :
  ∃ s',
    setup_master_password Demo.first_run = (Return true, s') ∧
    master_hash_file s' = Some (_hash_password "pw") ∧
    passwords s' = [].
Proof.
  destruct (first_setup_creates_master Demo.first_run "pw" [])
    as [Hok _]; [reflexivity | reflexivity |].
  destruct Hok as (s' & k & Hrun & Hm & _ & _ & _ & _ & _ & _ & _ & Hd);
    [reflexivity|].
  destruct Hd as [Hp _]; [reflexivity|]. by exists s'.
Defined.

Lemma first_setup_mismatch_witness :
  ∃ s',
    setup_master_password
      (fresh ["pw"; "pW"] Demo.entropy_stream None None None [])
    = (Return false, s') ∧
    master_hash_file s' = None ∧ key_file s' = None.
Proof.
  destruct (first_setup_mismatch
              (fresh ["pw"; "pW"] Demo.entropy_stream None None None [])
              "pw" "pW" [])
    as (s' & Hrun & Hm & Hk & _); [reflexivity | reflexivity | done |].
  by exists s'.
Defined.

Lemma first_setup_then_verify_witness :
  (setup_master_password
     (fresh ["pw"] Demo.entropy_stream (key_file Demo.unlocked)
        (data_file Demo.unlocked) (master_hash_file Demo.unlocked) [])).1
  = Return true.
Proof.
  destruct (first_setup_then_verify Demo.first_run "pw" [] "pw" []
              Demo.entropy_stream [])
    as [Hok _]; [reflexivity..|].
  apply Hok. reflexivity.
Defined.

Lemma add_then_get_witness :
  ∃ s',
    add_password "Gmail" "alice" (Some "s3cret") Demo.unlocked
    = (Return (), s') ∧
    get_password "GMAIL" s'
    = (Return (Some (Entry.mk "Gmail" "alice" "s3cret")), s').
Proof.
  destruct (add_then_get Demo.unlocked "Gmail" "alice" (Some "s3cret") "GMAIL")
    as (pw & s' & Hadd & Hpw & Hget & _); [reflexivity|].
  exists s'. split; [exact Hadd|]. by rewrite <- (Hpw "s3cret" eq_refl).
Defined.

Lemma vault_survives_restart_witness :
  ∃ s2,
    setup_master_password
      (fresh ["pw"] Demo.entropy_stream
         (key_file (add_password "GitHub" "bob" (Some "b0b") Demo.with_gmail).2)
         (data_file (add_password "GitHub" "bob" (Some "b0b") Demo.with_gmail).2)
         (master_hash_file
            (add_password "GitHub" "bob" (Some "b0b") Demo.with_gmail).2)
         [])
    = (Return true, s2) ∧
    passwords s2
    = passwords (add_password "GitHub" "bob" (Some "b0b") Demo.with_gmail).2.
Proof.
  destruct (vault_survives_restart Demo.with_gmail Demo.key "pw"
              toy_decrypt_encrypt toy_decode_encode toy_loads_dumps)
    with (tty := @nil string) (rnd := Demo.entropy_stream)
         (dk := @nil disk_event)
    as (Hadd & _ & _).
  - reflexivity.
  - reflexivity.
  - reflexivity.
  - reflexivity.
  - unfold wf_dict. vm_compute. apply NoDup_singleton.
  - exact I.
  - apply (Hadd "GitHub" "bob" (Some "b0b")).
Defined.

Lemma export_needs_confirmation_witness :
  (export_passwords "passwords_backup.json" (DemoScript.session ["no"])).1
  = Return () ∧
  directory
    (export_passwords "passwords_backup.json" (DemoScript.session ["no"])).2
  = ∅.
Proof.
  rewrite (export_needs_confirmation (DemoScript.session ["no"])
             "passwords_backup.json" "no" []); [done | reflexivity | done].
Defined.

Lemma export_writes_plaintext_witness :
  ∃ w',
    export_passwords "./passwords_backup.json" (DemoScript.session ["YES"])
    = (Return (), w') ∧
    directory w' !! "passwords_backup.json"
    = Some (json_dumps (passwords Demo.with_gmail)) ∧
    data_file (pm w') = data_file Demo.with_gmail ∧
    key_file (pm w') = key_file Demo.with_gmail.
Proof.
  destruct (export_writes_plaintext (DemoScript.session ["YES"])
              "./passwords_backup.json" "YES" "passwords_backup.json" [])
    as (w' & Hrun & _ & Hfile & _ & _ & Hd & Hk & _);
    [reflexivity | reflexivity | reflexivity | done | done | done |].
  exists w'. split; [exact Hrun|]. split; [exact Hfile|].
  split; [exact Hd | exact Hk].
Defined.


Lemma menu_exit_and_unknown_witness :
  (main_body (DemoScript.session [" 9 "])).1 = Return false ∧
  (main_body (DemoScript.session ["x"])).1 = Return true.
Proof.
  split.
  - destruct (menu_exit_and_unknown (DemoScript.session [" 9 "]) " 9 " [])
      as [Hexit _]; [reflexivity|].
    by rewrite Hexit.
  - destruct (menu_exit_and_unknown (DemoScript.session ["x"]) "x" [])
      as [_ Hother]; [reflexivity|].
    rewrite Hother; [done|]. vm_compute. intros Hin.
    repeat (apply elem_of_cons in Hin as [Hin|Hin]; [discriminate|]).
    by apply elem_of_nil in Hin.
Defined.


Lemma menu_add_ignores_length_witness :
  ∃ pw w',
    main_body (DemoScript.session ["1"; "GitHub"; "bob"; "y"; "40"])
    = (Return true, w') ∧
    String.length pw = 16 ∧
    dict_get (str_lower "GitHub") (passwords (pm w'))
    = Some (Entry.mk "GitHub" "bob" pw).
Proof.
  destruct (menu_add_ignores_length
              (DemoScript.session ["1"; "GitHub"; "bob"; "y"; "40"])
              "1" "GitHub" "bob" "y" "40" [])
    as [Hnum _]; [reflexivity..|].
  destruct Hnum as (pw & w' & Hrun & Hlen & Hget & _).
  - right. by exists 40%Z.
  - exists pw, w'. split; [exact Hrun|]. split; [exact Hlen | exact Hget].
Defined.

Lemma main_stops_at_rejected_password_witness :
  ∃ w',
    main 5 (DemoScript.later ["bad"; "9"]) = Some (Return (), w') ∧
    tty_in (pm w') = ["9"] ∧ passwords (pm w') = [].
Proof.
  destruct (main_stops_at_rejected_password
              (DemoScript.later ["bad"; "9"]) "bad" ["9"] 5)
    as (w' & Hrun & Ht & _ & Hp & _); [reflexivity | by vm_compute |].
  by exists w'.
Defined.

Lemma main_ends_witness :
  ∃ r, main 4 (DemoScript.start ["pw"; "pw"; "9"]) = Some r.
Proof.
  destruct (main_ends 4 (DemoScript.start ["pw"; "pw"; "9"]))
    as (r & Hr & _); [simpl; lia|].
  by exists r.
Defined.

(** Sessions at the menu, run. *)

Example first_session :
  (main 10 (DemoScript.start
              ["pw"; "pw"; "1"; "Gmail"; "alice"; "n"; "s3cret"; "9"])) ≫=
    (λ r, Some (r.1, passwords (pm r.2), tty_in (pm r.2)))
  = Some (Return (), [("gmail", Entry.mk "Gmail" "alice" "s3cret")], []).
Proof. by vm_compute. Qed.

Example input_runs_out :
  (main 10 (DemoScript.later ["pw"; "3"])) ≫= (λ r, Some r.1)
  = Some (Raise EOFError).
Proof. by vm_compute. Qed.

End more_runs.
